(** * EthosLens governance pipeline: a shallow embedding and its properties

    The development follows the two services of the Node runtime:

    - [inkeepAgentsService.js]: the remote client ([isAvailable],
      [processAdvancedGovernance], [#parseBasic], [#parseAdvanced]);
    - [governanceService.js]: the orchestrator ([processInteraction],
      [#detectViolations], [getStatus], [switchAgentType]).

    Each service is followed in its later revision: the orchestrator that
    always runs the legacy detection after the remote attempt, and the client
    that posts to the chat-completions endpoint.  The request of the earlier
    revision of the client is kept in [Conversations].

    JavaScript strings are modelled by [string], read as sequences of code
    units below 256 (the Latin-1 range); on that range [toLowerCase] and the
    regular expressions of the source are embedded exactly.  Numbers that the
    source writes as decimal literals (severities, confidences) are rationals:
    the only operations applied to them are the comparisons [>= 9] and [>= 7],
    on which the decimal literals of the source and their rational values
    agree.

    The body of a remote answer is any JSON value ([Json]); [ResponseJson] is
    the shape the client expects of it, an object whose [content] and
    [message] are strings or absent. *)

From Stdlib Require Import Ascii String NArith QArith.
From stdpp Require Import base decidable option list strings gmap pretty.

Local Open Scope list_scope.
Local Open Scope string_scope.

(** ** JavaScript strings *)

Module JsString.

Definition code (c : ascii) : N := N_of_ascii c.

(** [String.prototype.toLowerCase] on one code unit of the Latin-1 range:
    [A-Z] and the capital letters U+00C0..U+00DE (U+00D7 excepted) move up
    by 32, every other unit is unchanged. *)
Definition lower_unit (c : ascii) : ascii :=
  let n := code c in
  if ((65 <=? n) && (n <=? 90))%N then ascii_of_N (n + 32)
  else if ((192 <=? n) && (n <=? 222) && negb (n =? 215))%N
       then ascii_of_N (n + 32)
  else c.

Fixpoint toLowerCase (s : string) : string :=
  match s with
  | EmptyString => EmptyString
  | String c s' => String (lower_unit c) (toLowerCase s')
  end.

(** [s.slice(0, n)] for a non-negative [n]: the first [n] code units. *)
Fixpoint slice0 (n : nat) (s : string) : string :=
  match n, s with
  | O, _ => EmptyString
  | S _, EmptyString => EmptyString
  | S n', String c s' => String c (slice0 n' s')
  end.

(** [s.split(sep)] for a one-unit separator. *)
Fixpoint split_on (sep : ascii) (s : string) : list string :=
  match s with
  | EmptyString => [EmptyString]
  | String c s' =>
      if Ascii.eqb c sep then EmptyString :: split_on sep s'
      else match split_on sep s' with
           | [] => [String c EmptyString]
           | w :: ws => String c w :: ws
           end
  end.

(** [s.includes(sub)] *)
Fixpoint starts_with (sub s : string) : bool :=
  match sub, s with
  | EmptyString, _ => true
  | String _ _, EmptyString => false
  | String a sub', String b s' => Ascii.eqb a b && starts_with sub' s'
  end.

Fixpoint includes (sub s : string) : bool :=
  starts_with sub s ||
  match s with
  | EmptyString => false
  | String _ s' => includes sub s'
  end.

End JsString.

(** ** Regular expressions

    The fragment of ECMAScript patterns used by the two services: literal
    characters, [.], [\s], bracket classes, concatenation, alternation and the
    greedy quantifiers [*], [+], [?].  None of the patterns has anchors,
    back-references or look-around, so [RegExp.prototype.test] answers whether
    some substring of the subject belongs to the language of the pattern. *)

Module Regex.

Inductive atom : Type :=
| ALit (c : ascii)            (* a pattern character *)
| ADot                        (* .  *)
| ASpace.                     (* \s *)

Inductive regex : Type :=
| RVoid
| REps
| RAtom (a : atom)
| RClass (members : list atom) (* [...] *)
| RSeq (r1 r2 : regex)
| RAlt (r1 r2 : regex)
| RStar (r : regex)
| RPlus (r : regex)
| ROpt (r : regex).

(** Canonicalize of the /i flag (non-unicode mode): a code unit is replaced
    by its upper-case form, except that a unit at or above 128 is never
    mapped below 128.  On the Latin-1 range [a-z] go to [A-Z], the small
    letters U+00E0..U+00FE (U+00F7 excepted) go down by 32, and the units
    whose upper-case form is not a single Latin-1 unit (U+00B5, U+00DF,
    U+00FF) can only be equal to themselves among Latin-1 units. *)
Definition canonicalize (c : ascii) : ascii :=
  let n := JsString.code c in
  if ((97 <=? n) && (n <=? 122))%N then ascii_of_N (n - 32)
  else if ((224 <=? n) && (n <=? 254) && negb (n =? 247))%N
       then ascii_of_N (n - 32)
  else c.

(** WhiteSpace and LineTerminator code units below 256. *)
Definition is_space (c : ascii) : bool :=
  let n := JsString.code c in
  ((9 <=? n) && (n <=? 13) || (n =? 32) || (n =? 160))%N.

(** [.] matches every unit except the line terminators. *)
Definition is_dot (c : ascii) : bool :=
  let n := JsString.code c in
  negb ((n =? 10) || (n =? 13))%N.

(** Does the atom accept the code unit, under the /i flag? *)
Definition accepts (a : atom) (c : ascii) : bool :=
  match a with
  | ALit p => Ascii.eqb (canonicalize p) (canonicalize c)
  | ADot => is_dot c
  | ASpace => is_space c
  end.

Definition class_accepts (ms : list atom) (c : ascii) : bool :=
  existsb (fun m => accepts m c) ms.

Fixpoint nullable (r : regex) : bool :=
  match r with
  | RVoid => false
  | REps => true
  | RAtom _ => false
  | RClass _ => false
  | RSeq r1 r2 => nullable r1 && nullable r2
  | RAlt r1 r2 => nullable r1 || nullable r2
  | RStar _ => true
  | RPlus r1 => nullable r1
  | ROpt _ => true
  end.

Definition mk_seq (r1 r2 : regex) : regex :=
  match r1, r2 with
  | RVoid, _ => RVoid
  | _, RVoid => RVoid
  | REps, _ => r2
  | _, _ => RSeq r1 r2
  end.

Definition mk_alt (r1 r2 : regex) : regex :=
  match r1, r2 with
  | RVoid, _ => r2
  | _, RVoid => r1
  | _, _ => RAlt r1 r2
  end.

(** The residual of [r] after reading the code unit [c]. *)
Fixpoint deriv (c : ascii) (r : regex) : regex :=
  match r with
  | RVoid => RVoid
  | REps => RVoid
  | RAtom a => if accepts a c then REps else RVoid
  | RClass ms => if class_accepts ms c then REps else RVoid
  | RSeq r1 r2 =>
      mk_alt (mk_seq (deriv c r1) r2)
             (if nullable r1 then deriv c r2 else RVoid)
  | RAlt r1 r2 => mk_alt (deriv c r1) (deriv c r2)
  | RStar r1 => mk_seq (deriv c r1) (RStar r1)
  | RPlus r1 => mk_seq (deriv c r1) (RStar r1)
  | ROpt r1 => deriv c r1
  end.

(** Does some prefix of [s] match [r]? *)
Fixpoint match_prefix (r : regex) (s : list ascii) : bool :=
  nullable r ||
  match s with
  | [] => false
  | c :: s' => match_prefix (deriv c r) s'
  end.

(** The search loop of [RegExp.prototype.exec] for a pattern without the
    g and y flags: try every start index from 0 upwards. *)
Fixpoint search (r : regex) (s : list ascii) : bool :=
  match_prefix r s ||
  match s with
  | [] => false
  | _ :: s' => search r s'
  end.

(** [pattern.test(text)] *)
Definition test (r : regex) (text : string) : bool :=
  search r (list_ascii_of_string text).

(** *** Pattern syntax helpers *)

Fixpoint lit (s : string) : regex :=
  match s with
  | EmptyString => REps
  | String c EmptyString => RAtom (ALit c)
  | String c s' => RSeq (RAtom (ALit c)) (lit s')
  end.

Fixpoint seq (rs : list regex) : regex :=
  match rs with
  | [] => REps
  | [r] => r
  | r :: rs' => RSeq r (seq rs')
  end.

Fixpoint alt (rs : list regex) : regex :=
  match rs with
  | [] => RVoid
  | [r] => r
  | r :: rs' => RAlt r (alt rs')
  end.

Definition spaces : regex := RPlus (RAtom ASpace).          (* \s+ *)
Definition any : regex := RStar (RAtom ADot).               (* .*  *)
Definition wifi : regex :=                                  (* wi[-\s]?fi *)
  seq [lit "wi"; ROpt (RClass [ALit "-"%char; ASpace]); lit "fi"].

(** *** The language of a pattern *)

Inductive matches : regex -> list ascii -> Prop :=
| MEps : matches REps []
| MAtom a c : accepts a c = true -> matches (RAtom a) [c]
| MClass ms c : class_accepts ms c = true -> matches (RClass ms) [c]
| MSeq r1 r2 s1 s2 :
    matches r1 s1 -> matches r2 s2 -> matches (RSeq r1 r2) (s1 ++ s2)
| MAltL r1 r2 s : matches r1 s -> matches (RAlt r1 r2) s
| MAltR r1 r2 s : matches r2 s -> matches (RAlt r1 r2) s
| MStarNil r : matches (RStar r) []
| MStarCons r s1 s2 :
    matches r s1 -> matches (RStar r) s2 -> matches (RStar r) (s1 ++ s2)
| MPlus r s1 s2 :
    matches r s1 -> matches (RStar r) s2 -> matches (RPlus r) (s1 ++ s2)
| MOptNone r : matches (ROpt r) []
| MOptSome r s : matches r s -> matches (ROpt r) s.

End Regex.

(** ** Data model *)

Inductive Status : Type := Approved | Pending | Blocked.
Inductive Severity : Type := Low | Medium | High | Critical.
Inductive Action : Type := ActApprove | ActFlag | ActBlock | ActLog | ActError.

#[global] Instance Status_eq_dec : EqDecision Status.
Proof. solve_decision. Defined.
#[global] Instance Severity_eq_dec : EqDecision Severity.
Proof. solve_decision. Defined.
#[global] Instance Action_eq_dec : EqDecision Action.
Proof. solve_decision. Defined.

(** Milliseconds since the epoch, as [Date] holds them. *)
Definition Timestamp : Type := N.

Record Violation : Type := mkViolation {
  v_type : string;
  v_description : string;
  v_reason : string;
  v_severity : Q;
  v_confidence : Q;
  v_regulatoryFramework : option string
}.

Record AgentAction : Type := mkAgentAction {
  a_agentName : string;
  a_action : Action;
  a_details : string;
  a_timestamp : Timestamp
}.

Record Interaction : Type := mkInteraction {
  i_id : string;
  i_input : string;
  i_output : string;
  i_timestamp : Timestamp;
  i_status : Status;
  i_severity : Severity;
  i_violations : list Violation;
  i_agentActions : list AgentAction
}.

(** The [context] argument is an optional structured map.  The services only
    test it for presence and pass it to [JSON.stringify]; it is represented by
    that serialization. *)
Definition Context : Type := string.

(** ** Exceptions and promises *)

(** A JavaScript computation either returns or throws an [Error] carrying a
    [message]; an awaited promise that rejects throws at the [await]. *)
Inductive Result (A : Type) : Type :=
| Ok (a : A)
| Throw (message : string).
Arguments Ok {A} a.
Arguments Throw {A} message.

Definition bind {A B : Type} (m : Result A) (k : A -> Result B) : Result B :=
  match m with
  | Ok a => k a
  | Throw e => Throw e
  end.

(** [try { body } catch (e) { handler(e.message) }] *)
Definition try_catch {A : Type} (body : Result A) (handler : string -> Result A)
  : Result A :=
  match body with
  | Ok a => Ok a
  | Throw e => handler e
  end.

#[global] Instance Result_ret : MRet Result := fun A a => Ok a.
#[global] Instance Result_bind : MBind Result := fun A B k m => bind m k.

(** The state of a promise seen by its consumer. *)
Inductive Settled (A : Type) : Type :=
| Fulfilled (a : A)
| Rejected (message : string)
| StillPending.
Arguments Fulfilled {A} a.
Arguments Rejected {A} message.
Arguments StillPending {A}.

(** [a || b] on values that are strings or [undefined]: the empty string and
    [undefined] are falsy. *)
Definition truthy (o : option string) : bool :=
  match o with
  | Some s => negb (String.eqb s EmptyString)
  | None => false
  end.

Definition js_or (o : option string) (d : option string) : option string :=
  if truthy o then o else d.

Definition js_or_default (o : option string) (d : string) : string :=
  match js_or o (Some d) with
  | Some s => s
  | None => d
  end.

(** The double quote and the line feed, for the template literals. *)
Definition dq : string := String (ascii_of_nat 34) EmptyString.
Definition nl : string := String (ascii_of_nat 10) EmptyString.

(** [process.env] *)
Abbreviation Env := (gmap string string).

(** The readings of [Date] / [Date.now()] and of
    [Math.random().toString(36).slice(2, 9)], one per place of the source that
    asks for them. *)
Inductive ClockSite : Type :=
| AtInteractionId | AtInteractionCreated | AtCoordinatorAction
| AtInkeepError | AtLegacyAction.

Record Runtime : Type := mkRuntime {
  Date_at : ClockSite -> Timestamp;
  random_suffix : string
}.

(** ** inkeepAgentsService.js *)

Record InkeepAgentsService : Type := mkInkeepAgentsService {
  baseUrl : string;
  isEnabled : bool
}.

Definition env_is (env : Env) (k v : string) : bool :=
  bool_decide (env !! k = Some v).

(** The constructor. *)
Definition InkeepAgentsService_new (env : Env) : InkeepAgentsService :=
  {| baseUrl :=
       js_or_default
         (js_or (env !! "INKEEP_AGENTS_URL") (env !! "VITE_INKEEP_AGENTS_URL"))
         "http://localhost:3003";
     isEnabled :=
       env_is env "USE_INKEEP_AGENTS" "true"
       || env_is env "VITE_USE_INKEEP_AGENTS" "true" |}.

(** *** isAvailable *)

Record ParsedUrl : Type := mkParsedUrl {
  protocol : string;
  href : string
}.

Record RequestOptions : Type := mkRequestOptions {
  opt_method : string;
  opt_timeout : Z          (* milliseconds *)
}.

Inductive HttpModule : Type := ModHttp | ModHttps.

(** What the request object emits after [req.end()]. *)
Inductive RequestEvent : Type :=
| EvResponse (statusCode : Z)
| EvError (message : string)
| EvTimeout.

(** The network side of the probe: [new URL(s)], which throws on a string
    that is not a URL, and the events delivered for a request. *)
Record ProbeNetwork : Type := mkProbeNetwork {
  URL_new : string -> Result ParsedUrl;
  request_events : HttpModule -> ParsedUrl -> RequestOptions -> list RequestEvent
}.

(** [client.request] throws at once when the protocol of the URL is not the
    one of the module it is called on. *)
Definition request_accepts (client : HttpModule) (u : ParsedUrl) : bool :=
  match client with
  | ModHttp => String.eqb (protocol u) "http:"
  | ModHttps => String.eqb (protocol u) "https:"
  end.

Definition client_request (net : ProbeNetwork) (client : HttpModule)
    (u : ParsedUrl) (options : RequestOptions) : Result (list RequestEvent) :=
  if request_accepts client u then Ok (request_events net client u options)
  else Throw ("Protocol " ++ dq ++ protocol u ++ dq ++ " not supported.").

Definition health_options : RequestOptions :=
  {| opt_method := "GET"; opt_timeout := 5000 |}.

(** [resolve(v)]: only the first call settles the promise. *)
Definition resolve (v : bool) (p : Settled bool) : Settled bool :=
  match p with
  | StillPending => Fulfilled v
  | _ => p
  end.

Definition status_is_available (statusCode : Z) : bool :=
  ((statusCode =? 204) || ((200 <=? statusCode) && (statusCode <? 300)))%Z.

Definition on_event (p : Settled bool) (e : RequestEvent) : Settled bool :=
  match e with
  | EvResponse statusCode => resolve (status_is_available statusCode) p
  | EvError _ => resolve false p
  | EvTimeout => resolve false p       (* after req.destroy() *)
  end.

(** [parsedUrl.protocol === 'https:' ? https.default : http.default] *)
Definition client_for (parsedUrl : ParsedUrl) : HttpModule :=
  if String.eqb (protocol parsedUrl) "https:" then ModHttps else ModHttp.

(** [new Promise(executor)]: an exception that leaves the executor rejects
    the promise. *)
Definition new_Promise {A : Type} (executor : Result (Settled A)) : Settled A :=
  match executor with
  | Ok p => p
  | Throw message => Rejected message
  end.

(** The executor of the probe: the state of the promise once the events of
    the request have been handled. *)
Definition probe_executor (svc : InkeepAgentsService) (net : ProbeNetwork)
  : Result (Settled bool) :=
  try_catch
    (parsedUrl ← URL_new net (baseUrl svc ++ "/health");
     let client := client_for parsedUrl in
     events ← client_request net client parsedUrl health_options;
     Ok (fold_left on_event events StillPending))
    (fun err => Ok (resolve false StillPending)).

Definition isAvailable (svc : InkeepAgentsService) (net : ProbeNetwork)
  : Settled bool :=
  if negb (isEnabled svc) then Fulfilled false
  else new_Promise (probe_executor svc net).

(** *** processAdvancedGovernance *)

Record ChatMessage : Type := mkChatMessage {
  role : string;
  content : string
}.

(** The object handed to [JSON.stringify] for the request body. *)
Record RequestBody : Type := mkRequestBody {
  model : string;
  messages : list ChatMessage;
  temperature : Q;
  max_tokens : Z
}.

Record FetchRequest : Type := mkFetchRequest {
  req_url : string;
  req_method : string;
  req_headers : list (string * string);
  req_body : RequestBody
}.

Set Warnings "-register-all".

(** What [await response.json()] yields is any JSON value.  A number is kept
    by the text that [String(n)] gives it: besides its truthiness, this is the
    only reading the client makes of one.  An object is kept by its members in
    the order of the text. *)
Inductive Json : Type :=
| JNull
| JBool (b : bool)
| JNumber (shown : string)
| JString (s : string)
| JArray (items : list Json)
| JObject (members : list (string * Json)).

Set Warnings "register-all".

(** The value that [JSON.parse] leaves under [key]: of two members with the
    same key, the later one. *)
Fixpoint member (key : string) (members : list (string * Json)) : option Json :=
  match members with
  | [] => None
  | (k, v) :: rest =>
      match member key rest with
      | Some later => Some later
      | None => if String.eqb k key then Some v else None
      end
  end.

(** [value.key], for the keys [content] and [message], which no prototype
    defines: [None] is [undefined], and reading a property of [null] throws
    the [TypeError] worded as V8 words it. *)
Definition get (value : Json) (key : string) : Result (option Json) :=
  match value with
  | JNull => Throw ("Cannot read properties of null (reading '" ++ key ++ "')")
  | JObject members => Ok (member key members)
  | _ => Ok None
  end.

(** [ToBoolean]: [undefined], [null], [false], zero and the empty string are
    falsy, everything else (arrays and objects included) is truthy. *)
Definition ToBoolean (value : option Json) : bool :=
  match value with
  | None => false
  | Some JNull => false
  | Some (JBool b) => b
  | Some (JNumber shown) => negb (String.eqb shown "0")
  | Some (JString s) => negb (String.eqb s EmptyString)
  | Some (JArray _) => true
  | Some (JObject _) => true
  end.

(** [a || b], with [b] already a value. *)
Definition or_value (a : option Json) (b : Json) : Json :=
  match a with
  | Some value => if ToBoolean a then value else b
  | None => b
  end.

Fixpoint join (separator : string) (parts : list string) : string :=
  match parts with
  | [] => EmptyString
  | [part] => part
  | part :: rest => part ++ separator ++ join separator rest
  end.

(** The results of [f] along a list, up to the first that throws. *)
Fixpoint collect {A B : Type} (f : A -> Result B) (l : list A)
  : Result (list B) :=
  match l with
  | [] => Ok []
  | x :: rest =>
      y ← f x;
      ys ← collect f rest;
      Ok (y :: ys)
  end.

(** [ToString], which [RegExp.prototype.test] and [+] apply to a value that
    is not a string.  An array is its elements joined by commas, [null]
    elements counting as empty.  An object is [[object Object]], unless it
    has a member [toString] of its own: that member, being data, cannot be
    called, [valueOf] gives no primitive either, and the conversion throws
    the [TypeError] worded as V8 words it. *)
Fixpoint ToString (value : Json) : Result string :=
  match value with
  | JNull => Ok "null"
  | JBool true => Ok "true"
  | JBool false => Ok "false"
  | JNumber shown => Ok shown
  | JString s => Ok s
  | JArray items =>
      parts ← collect (fun item =>
                         match item with
                         | JNull => Ok EmptyString
                         | _ => ToString item
                         end) items;
      Ok (join "," parts)
  | JObject members =>
      match member "toString" members with
      | Some _ => Throw "Cannot convert object to primitive value"
      | None => Ok "[object Object]"
      end
  end.

(** A body of the expected shape: an object whose [content] and [message],
    when present, are strings. *)
Record ResponseJson : Type := mkResponseJson {
  resp_content : option string;
  resp_message : option string
}.

Definition string_member (key : string) (value : option string)
  : list (string * Json) :=
  match value with
  | Some s => [(key, JString s)]
  | None => []
  end.

Definition body_of (response : ResponseJson) : Json :=
  JObject (string_member "content" (resp_content response)
             ++ string_member "message" (resp_message response))%list.

Record HttpResponse : Type := mkHttpResponse {
  resp_status : Z;
  resp_text : Result string;            (* await response.text() *)
  resp_json : Result Json               (* await response.json() *)
}.

Definition resp_ok (r : HttpResponse) : bool :=
  ((200 <=? resp_status r) && (resp_status r <=? 299))%Z.

Record VerificationResults : Type := mkVerificationResults {
  isAccurate : bool;
  vr_confidence : Q
}.

Record InkeepResult : Type := mkInkeepResult {
  r_violations : list Violation;
  r_agentActions : list AgentAction;
  r_status : Status;
  r_severity : Severity;
  r_verificationResults : option VerificationResults
}.

Definition re_violation_or_blocked : Regex.regex :=       (* /violation|blocked/i *)
  Regex.alt [Regex.lit "violation"; Regex.lit "blocked"].
Definition re_critical : Regex.regex := Regex.lit "critical".             (* /critical/i *)
Definition re_misinformation : Regex.regex := Regex.lit "misinformation". (* /misinformation/i *)

(** [#parseBasic] and [#parseAdvanced] on a body of the expected shape,
    where every step is defined.  [Dynamic] below follows the same two
    functions on any body. *)
Definition response_content (response : ResponseJson) : string :=
  js_or_default (js_or (resp_content response) (resp_message response))
                EmptyString.

Definition parseBasic (rt : Runtime) (response : ResponseJson) : InkeepResult :=
  let content := response_content response in
  let hasViolation := Regex.test re_violation_or_blocked content in
  let severity :=
    if Regex.test re_critical content then Critical
    else if hasViolation then High else Low in
  {| r_violations :=
       if hasViolation then
         [ {| v_type := "compliance";
              v_description := "Detected by Inkeep";
              v_severity := if Regex.test re_critical content then 9 else 7;
              v_confidence := 0.85;
              v_reason := "Inkeep analysis";
              v_regulatoryFramework := None |} ]
       else [];
     r_agentActions :=
       [ {| a_agentName := "InkeepGovernanceCoordinator";
            a_action := if hasViolation then ActFlag else ActApprove;
            a_details := JsString.slice0 200 content ++ "...";
            a_timestamp := Date_at rt AtCoordinatorAction |} ];
     r_status :=
       if hasViolation
       then (if Regex.test re_critical content then Blocked else Pending)
       else Approved;
     r_severity := severity;
     r_verificationResults := None |}.

Definition parseAdvanced (rt : Runtime) (response : ResponseJson) : InkeepResult :=
  let basic := parseBasic rt response in
  {| r_violations := r_violations basic;
     r_agentActions := r_agentActions basic;
     r_status := r_status basic;
     r_severity := r_severity basic;
     r_verificationResults :=
       Some {| isAccurate :=
                 negb (Regex.test re_misinformation
                         (js_or_default (resp_content response) EmptyString));
               vr_confidence := 0.85 |} |}.

(** [#parseBasic] and [#parseAdvanced] on whatever the body holds: reading a
    property of [null], converting the content to a string and calling its
    [slice] can each throw.  The definitions above are these on a body of the
    expected shape ([parseBasic_on_body], [parseAdvanced_on_body]). *)
Module Dynamic.

(** [response.content || response.message || ''] *)
Definition read_content (response : Json) : Result Json :=
  content ← get response "content";
  if ToBoolean content then Ok (or_value content (JString EmptyString))
  else
    message ← get response "message";
    Ok (or_value message (JString EmptyString)).

(** [content.slice(0, 200) + '...']: strings and arrays have a [slice]; on a
    number, a boolean or an object the call throws. *)
Definition sliced (content : Json) : Result string :=
  match content with
  | JString s => Ok (JsString.slice0 200 s ++ "...")
  | JArray items =>
      text ← ToString (JArray (firstn 200 items));
      Ok (text ++ "...")
  | JNull => Throw "Cannot read properties of null (reading 'slice')"
  | _ => Throw "content.slice is not a function"
  end.

(** The values on which [slice] is a function. *)
Definition has_slice (content : Json) : bool :=
  match content with
  | JString _ => true
  | JArray _ => true
  | _ => false
  end.

Definition parseBasic (rt : Runtime) (response : Json) : Result InkeepResult :=
  content ← read_content response;
  text ← ToString content;
  let hasViolation := Regex.test re_violation_or_blocked text in
  let severity :=
    if Regex.test re_critical text then Critical
    else if hasViolation then High else Low in
  details ← sliced content;
  Ok {| r_violations :=
          if hasViolation then
            [ {| v_type := "compliance";
                 v_description := "Detected by Inkeep";
                 v_severity := if Regex.test re_critical text then 9 else 7;
                 v_confidence := 0.85;
                 v_reason := "Inkeep analysis";
                 v_regulatoryFramework := None |} ]
          else [];
        r_agentActions :=
          [ {| a_agentName := "InkeepGovernanceCoordinator";
               a_action := if hasViolation then ActFlag else ActApprove;
               a_details := details;
               a_timestamp := Date_at rt AtCoordinatorAction |} ];
        r_status :=
          if hasViolation
          then (if Regex.test re_critical text then Blocked else Pending)
          else Approved;
        r_severity := severity;
        r_verificationResults := None |}.

Definition parseAdvanced (rt : Runtime) (response : Json) : Result InkeepResult :=
  basic ← parseBasic rt response;
  content ← get response "content";
  text ← ToString (or_value content (JString EmptyString));
  Ok {| r_violations := r_violations basic;
        r_agentActions := r_agentActions basic;
        r_status := r_status basic;
        r_severity := r_severity basic;
        r_verificationResults :=
          Some {| isAccurate := negb (Regex.test re_misinformation text);
                  vr_confidence := 0.85 |} |}.

End Dynamic.

Definition quoted (s : string) : string := dq ++ s ++ dq.

(** The lines of a template literal, joined by line feeds. *)
Fixpoint lines (ls : list string) : string :=
  match ls with
  | [] => EmptyString
  | [l] => l
  | l :: ls' => l ++ nl ++ lines ls'
  end.

Definition system_instruction : string :=
  lines
    [ "You are an AI Governance expert. Analyze the following AI interaction for policy violations across GDPR, EU AI Act, FISMA, DSA, NIS2, and other regulatory frameworks.";
      EmptyString;
      "CRITICAL: For any content requesting illegal activities (hacking, unauthorized access, violence, etc.), you MUST respond with:";
      "{";
      "  " ++ quoted "status" ++ ": " ++ quoted "BLOCKED" ++ ",";
      "  " ++ quoted "severity" ++ ": " ++ quoted "CRITICAL" ++ ",";
      "  " ++ quoted "violations" ++ ": [list of violations],";
      "  " ++ quoted "reason" ++ ": " ++ quoted "specific reason";
      "}";
      EmptyString;
      "Be very strict about security and safety violations." ].

Definition context_line (context : option Context) : string :=
  match context with
  | Some json => "CONTEXT: " ++ json
  | None => EmptyString
  end.

Definition user_content (input output : string) (context : option Context)
  : string :=
  lines
    [ "Analyze this interaction:";
      EmptyString;
      "INPUT: " ++ quoted input;
      "OUTPUT: " ++ quoted output;
      context_line context;
      EmptyString;
      "Provide a JSON response with:";
      "1. status: " ++ quoted "APPROVED" ++ ", " ++ quoted "FLAGGED" ++ ", or "
        ++ quoted "BLOCKED";
      "2. severity: " ++ quoted "LOW" ++ ", " ++ quoted "MEDIUM" ++ ", "
        ++ quoted "HIGH" ++ ", or " ++ quoted "CRITICAL" ++ "  ";
      "3. violations: array of detected violations";
      "4. reason: explanation" ].

Definition graph_id_header : string := "x-inkeep-graph-id".

(** The request of [processAdvancedGovernance]. *)
Definition advanced_request (svc : InkeepAgentsService)
    (input output : string) (context : option Context) : FetchRequest :=
  {| req_url := baseUrl svc ++ "/v1/chat/completions";
     req_method := "POST";
     req_headers :=
       [ ("Content-Type", "application/json");
         (graph_id_header, "ethoslens/governance-graph-advanced") ];
     req_body :=
       {| model := "openai/gpt-4.1-2025-04-14";
          messages :=
            [ {| role := "system"; content := system_instruction |};
              {| role := "user"; content := user_content input output context |} ];
          temperature := 0.1;
          max_tokens := 1000 |} |}.

(** [fetch]: the response, or the rejection of the promise. *)
Definition Fetch : Type := FetchRequest -> Result HttpResponse.

Definition processAdvancedGovernance (svc : InkeepAgentsService) (rt : Runtime)
    (fetch : Fetch) (input output : string) (context : option Context)
  : Result InkeepResult :=
  response ← fetch (advanced_request svc input output context);
  if negb (resp_ok response) then
    error ← resp_text response;
    Throw ("Inkeep agents API error: " ++ pretty (resp_status response)
             ++ " - " ++ error)
  else
    result ← resp_json response;
    Dynamic.parseAdvanced rt result.

(** The earlier request shape of the same function, kept in
    [inkeepAgentsService.js]: a POST to [/conversations] whose body names the
    graph and carries one message. *)
Module Conversations.

Record Body : Type := mkBody {
  graphId : string;
  message : string
}.

Record Request : Type := mkRequest {
  url : string;
  method : string;
  headers : list (string * string);
  body : Body
}.

Definition advanced_request (svc : InkeepAgentsService)
    (input output : string) (context : option Context) : Request :=
  {| url := baseUrl svc ++ "/conversations";
     method := "POST";
     headers := [ ("Content-Type", "application/json") ];
     body :=
       {| graphId := "governance-graph-advanced";
          message :=
            "Please perform advanced governance analysis on this AI interaction:"
              ++ nl ++ nl ++ "Input: " ++ quoted input
              ++ nl ++ "Output: " ++ quoted output
              ++ nl ++ match context with
                       | Some json => "Context: " ++ json
                       | None => EmptyString
                       end |} |}.

End Conversations.

(** An identifier composed as tenant/project/graph: three non-empty
    components separated by two slashes. *)
Definition is_tenant_project_graph (s : string) : bool :=
  match JsString.split_on "/"%char s with
  | [tenant; project; graph] =>
      negb (String.eqb tenant EmptyString)
      && negb (String.eqb project EmptyString)
      && negb (String.eqb graph EmptyString)
  | _ => false
  end.

(** The identifiers a request carries: its [model] and its graph header. *)
Definition request_identifiers (r : FetchRequest) : list string :=
  model (req_body r)
  :: map snd (filter (fun h => String.eqb (fst h) graph_id_header = true)
                     (req_headers r)).

(** ** governanceService.js *)

Record GovernanceService : Type := mkGovernanceService {
  useInkeepAgents : bool;
  inkeepAvailable : bool
}.

(** The constructor: enabled unless one of the two variables is the string
    'false'; the availability starts at [false]. *)
Definition GovernanceService_new (env : Env) : GovernanceService :=
  {| useInkeepAgents :=
       negb (env_is env "USE_INKEEP_AGENTS" "false")
       && negb (env_is env "VITE_USE_INKEEP_AGENTS" "false");
     inkeepAvailable := false |}.

(** [this.inkeepAvailable = await inkeepAgentsService.isAvailable()]: the
    assignment happens once the probe has settled. *)
Definition checkInkeepAvailability (gov : GovernanceService)
    (probe : Settled bool) : GovernanceService :=
  match probe with
  | Fulfilled b =>
      {| useInkeepAgents := useInkeepAgents gov; inkeepAvailable := b |}
  | _ => gov
  end.

(** [await p] inside an async function: the function resumes with the value
    of [p] once it is fulfilled, rejects with it, and stays pending with it. *)
Definition await_then {A B : Type} (p : Settled A) (k : A -> B) : Settled B :=
  match p with
  | Fulfilled a => Fulfilled (k a)
  | Rejected message => Rejected message
  | StillPending => StillPending
  end.

(** [switchAgentType] (lines 317-320): the service as the call leaves it, and
    the promise it returns.  The flag is assigned before the probe is
    awaited. *)
Definition switchAgentType (gov : GovernanceService) (useInkeep : bool)
    (probe : Settled bool) : GovernanceService * Settled unit :=
  let gov' :=
    {| useInkeepAgents := useInkeep; inkeepAvailable := inkeepAvailable gov |} in
  if useInkeepAgents gov'
  then (checkInkeepAvailability gov' probe, await_then probe (fun _ => tt))
  else (gov', Fulfilled tt).

Inductive AgentType : Type := AgentInkeep | AgentLegacy.

Record ServiceStatus : Type := mkServiceStatus {
  usingInkeep : bool;
  st_inkeepAvailable : bool;
  agentType : AgentType
}.

Definition status_of (gov : GovernanceService) : ServiceStatus :=
  {| usingInkeep := useInkeepAgents gov;
     st_inkeepAvailable := inkeepAvailable gov;
     agentType :=
       if useInkeepAgents gov && inkeepAvailable gov
       then AgentInkeep else AgentLegacy |}.

(** [getStatus] (lines 304-315): the availability is probed again only when
    the remote tier is enabled. *)
Definition getStatus (gov : GovernanceService) (probe : Settled bool)
  : GovernanceService * Settled ServiceStatus :=
  if useInkeepAgents gov then
    let gov' := checkInkeepAvailability gov probe in
    (gov', await_then probe (fun _ => status_of gov'))
  else (gov, Fulfilled (status_of gov)).

(** *** #detectViolations (lines 329-427) *)

Import Regex.

Definition wifiHackingPatterns : list regex :=
  [ seq [lit "hack"; spaces; lit "into"; spaces; lit "someone"; any; wifi];
    seq [lit "hack"; spaces; lit "into"; any; wifi];
    seq [lit "break"; spaces; lit "into"; any; wifi; any; lit "without"; any;
         lit "knowing"];
    seq [lit "crack"; any; wifi; any; lit "password"];
    seq [lit "bypass"; any; wifi; any; lit "security"];
    seq [lit "steal"; any; wifi; any; lit "password"];
    seq [lit "unauthorized"; any; wifi; any; lit "access"];
    seq [lit "how"; spaces; alt [lit "do"; lit "can"; lit "to"]; spaces;
         lit "i"; any; lit "hack"; any; wifi] ].

Definition hackingPatterns : list regex :=
  [ seq [lit "hack"; spaces; lit "into"];
    seq [lit "break"; spaces; lit "into"; spaces;
         alt [lit "account"; lit "system"; lit "network"]];
    seq [lit "crack"; spaces; lit "password"];
    seq [lit "bypass"; spaces; lit "security"];
    seq [lit "unauthorized"; spaces; lit "access"];
    seq [lit "exploit"; spaces; lit "vulnerability"] ].

Definition violencePatterns : list regex :=
  [ seq [lit "how"; spaces; lit "to"; spaces; lit "kill"];
    seq [lit "how"; spaces; lit "to"; spaces; lit "murder"];
    seq [lit "how"; spaces; lit "to"; spaces; lit "hurt"; spaces; lit "someone"];
    seq [lit "ways"; spaces; lit "to"; spaces; lit "kill"];
    seq [lit "murder"; spaces; lit "someone"] ].

Definition piiPatterns : list regex :=
  [ seq [alt [seq [lit "phone"; spaces; lit "number"]; lit "address"; lit "email"];
         any; lit "of"; any;
         alt [lit "celebrity"; seq [lit "taylor"; spaces; lit "swift"];
              seq [lit "elon"; spaces; lit "musk"]]];
    seq [lit "give"; spaces; lit "me"; any;
         alt [seq [lit "phone"; spaces; lit "number"]; lit "address"; lit "email"]] ].

Definition wifiViolation : Violation :=
  {| v_type := "illegal_activity";
     v_description := "WiFi hacking attempt detected";
     v_reason := "Content requests assistance with unauthorized WiFi access (hacking)";
     v_severity := 9.0;
     v_confidence := 0.95;
     v_regulatoryFramework := Some "Computer Fraud and Abuse Act" |}.

Definition hackingViolation : Violation :=
  {| v_type := "illegal_activity";
     v_description := "Illegal hacking or cybersecurity violation detected";
     v_reason := "Content requests assistance with unauthorized access or hacking";
     v_severity := 9.5;
     v_confidence := 0.9;
     v_regulatoryFramework := Some "Computer Fraud and Abuse Act" |}.

Definition violenceViolation : Violation :=
  {| v_type := "violence";
     v_description := "Violent content detected";
     v_reason := "Content contains requests for violence or harm";
     v_severity := 9.8;
     v_confidence := 0.95;
     v_regulatoryFramework := Some "Safety Standards" |}.

Definition piiViolation : Violation :=
  {| v_type := "gdpr";
     v_description := "Personal information request detected";
     v_reason := "Content requests private personal information";
     v_severity := 8.5;
     v_confidence := 0.9;
     v_regulatoryFramework := Some "GDPR" |}.

(** One [for (const pattern of patterns)] loop of the detector: at the first
    pattern whose condition holds, push [v] and [break]. *)
Fixpoint scan (guard : list Violation -> bool) (v : Violation) (text : string)
    (patterns : list regex) (violations : list Violation) : list Violation :=
  match patterns with
  | [] => violations
  | pattern :: rest =>
      if test pattern text && guard violations
      then violations ++ [v]
      else scan guard v text rest violations
  end.

Definition always (_ : list Violation) : bool := true.
Definition none_so_far (violations : list Violation) : bool :=
  Nat.eqb (length violations) 0.

Definition detection_text (input output : string) : string :=
  JsString.toLowerCase (input ++ " " ++ output).

Definition detectViolations (input output : string) : list Violation :=
  let violations := [] in
  let text := detection_text input output in
  let violations := scan always wifiViolation text wifiHackingPatterns violations in
  let violations := scan none_so_far hackingViolation text hackingPatterns violations in
  let violations := scan always violenceViolation text violencePatterns violations in
  let violations := scan always piiViolation text piiPatterns violations in
  violations.

(** *** processInteraction *)

(** What the orchestrator reads of the value the remote client returns:
    [result], [result.violations] and [result.agentActions] may each be
    missing. *)
Record RemoteResult : Type := mkRemoteResult {
  rr_violations : option (list Violation);
  rr_agentActions : option (list AgentAction)
}.

Definition RemoteClient : Type :=
  string -> string -> option Context -> Result (option RemoteResult).

Definition result_view (r : InkeepResult) : option RemoteResult :=
  Some {| rr_violations := Some (r_violations r);
          rr_agentActions := Some (r_agentActions r) |}.

(** [inkeepAgentsService.processAdvancedGovernance] as the orchestrator
    calls it. *)
Definition inkeepClient (svc : InkeepAgentsService) (rt : Runtime)
    (fetch : Fetch) : RemoteClient :=
  fun input output context =>
    result ← processAdvancedGovernance svc rt fetch input output context;
    Ok (result_view result).

Definition push_violations (i : Interaction) (vs : list Violation) : Interaction :=
  {| i_id := i_id i; i_input := i_input i; i_output := i_output i;
     i_timestamp := i_timestamp i; i_status := i_status i;
     i_severity := i_severity i;
     i_violations := i_violations i ++ vs;
     i_agentActions := i_agentActions i |}.

Definition push_actions (i : Interaction) (acts : list AgentAction) : Interaction :=
  {| i_id := i_id i; i_input := i_input i; i_output := i_output i;
     i_timestamp := i_timestamp i; i_status := i_status i;
     i_severity := i_severity i;
     i_violations := i_violations i;
     i_agentActions := i_agentActions i ++ acts |}.

Definition set_verdict (i : Interaction) (st : Status) (sev : Severity)
  : Interaction :=
  {| i_id := i_id i; i_input := i_input i; i_output := i_output i;
     i_timestamp := i_timestamp i; i_status := st; i_severity := sev;
     i_violations := i_violations i;
     i_agentActions := i_agentActions i |}.

Definition new_interaction (rt : Runtime) (input output : string) : Interaction :=
  {| i_id := "interaction_" ++ pretty (Date_at rt AtInteractionId) ++ "_"
               ++ random_suffix rt;
     i_input := input;
     i_output := output;
     i_timestamp := Date_at rt AtInteractionCreated;
     i_status := Pending;
     i_severity := Low;
     i_violations := [];
     i_agentActions := [] |}.

Definition useInkeep (gov : GovernanceService) : bool :=
  useInkeepAgents gov && inkeepAvailable gov.

(** The remote attempt (lines 239-262): the interaction after it, and
    [inkeepSuccess]. *)
Definition remote_stage (gov : GovernanceService) (remote : RemoteClient)
    (rt : Runtime) (input output : string) (context : option Context)
    (interaction : Interaction) : Result (Interaction * bool) :=
  if useInkeep gov then
    try_catch
      (result ← remote input output context;
       match result with
       | Some r =>
           match rr_violations r with
           | Some violations =>
               if (0 <? length violations)%nat then
                 Ok (push_actions (push_violations interaction violations)
                       (default [] (rr_agentActions r)),
                     true)
               else Ok (interaction, false)
           | None => Ok (interaction, false)
           end
       | None => Ok (interaction, false)
       end)
      (fun message =>
         Ok (push_actions interaction
               [ {| a_agentName := "InkeepGovernance";
                    a_action := ActError;
                    a_details := "Inkeep error: " ++ message;
                    a_timestamp := Date_at rt AtInkeepError |} ],
             false))
  else Ok (interaction, false).

(** The legacy detection and the merge of its findings (lines 264-284). *)
Definition local_stage (rt : Runtime) (input output : string)
    (interaction : Interaction) (inkeepSuccess : bool) : Interaction :=
  let violations := detectViolations input output in
  if (0 <? length violations)%nat then
    let existingTypes : gset string :=
      list_to_set (map v_type (i_violations interaction)) in
    let merged :=
      fold_left
        (fun acc v =>
           if bool_decide (v_type v ∈ existingTypes) then acc
           else push_violations acc [v])
        violations interaction in
    push_actions merged
      [ {| a_agentName :=
             if inkeepSuccess then "LegacyPolicyEnforcer (Verification)"
             else "LegacyPolicyEnforcer";
           a_action := if (0 <? length violations)%nat then ActBlock else ActApprove;
           a_details := "Detected " ++ pretty (length violations) ++ " violation(s)";
           a_timestamp := Date_at rt AtLegacyAction |} ]
  else interaction.

Definition sev_ge (bound : Q) (v : Violation) : bool :=
  Qle_bool bound (v_severity v).

(** Finalize status (lines 286-299): the pair assigned to [status] and
    [severity]. *)
Definition verdict (violations : list Violation) : Status * Severity :=
  if Nat.eqb (length violations) 0 then (Approved, Low)
  else if existsb (sev_ge 9) violations then (Blocked, Critical)
  else if existsb (sev_ge 7) violations then (Pending, High)
  else (Pending, Medium).

Definition finalize (interaction : Interaction) : Interaction :=
  let '(status, severity) := verdict (i_violations interaction) in
  set_verdict interaction status severity.

Definition processInteraction (gov : GovernanceService) (remote : RemoteClient)
    (rt : Runtime) (input output : string) (context : option Context)
  : Result Interaction :=
  let interaction := new_interaction rt input output in
  '(interaction, inkeepSuccess) ←
    remote_stage gov remote rt input output context interaction;
  let interaction := local_stage rt input output interaction inkeepSuccess in
  Ok (finalize interaction).

(** ** Vocabulary of the statements *)

(** Some pattern of the catalog matches the text. *)
Definition hit (patterns : list regex) (text : string) : bool :=
  existsb (fun pattern => test pattern text) patterns.

Definition is_error_action (a : AgentAction) : Prop :=
  a_action a = ActError.

#[global] Instance is_error_action_dec a : Decision (is_error_action a).
Proof. unfold is_error_action. apply _. Defined.

Definition of_type (t : string) (v : Violation) : Prop :=
  v_type v = t.

#[global] Instance of_type_dec t v : Decision (of_type t v).
Proof. unfold of_type. apply _. Defined.

(** The orders in which statuses and severities escalate. *)
Definition status_rank (s : Status) : nat :=
  match s with Approved => 0 | Pending => 1 | Blocked => 2 end.

Definition severity_rank (s : Severity) : nat :=
  match s with Low => 0 | Medium => 1 | High => 2 | Critical => 3 end.



(** An output is innocuous when, on its own, it triggers no pattern of the
    detector. *)
Definition innocuous (output : string) : Prop :=
  detectViolations EmptyString output = [].

(** [dies r w]: reading [w] from its first unit on, the pattern [r] fails
    before the end of [w], whatever follows [w]. *)
Definition is_void (r : regex) : bool :=
  match r with RVoid => true | _ => false end.

Fixpoint dies (r : regex) (w : list ascii) : bool :=
  negb (nullable r) &&
  match w with
  | [] => false
  | c :: w' => is_void (deriv c r) || dies (deriv c r) w'
  end.

(** No match of [r] starts inside [w], whatever follows [w]. *)
Fixpoint starts_nowhere (r : regex) (w : list ascii) : bool :=
  match w with
  | [] => true
  | _ :: w' => dies r w && starts_nowhere r w'
  end.

(** ** Sample configurations and inputs *)

Definition sample_runtime : Runtime :=
  {| Date_at := fun _ => 1700000000000%N; random_suffix := "k3x9q2z" |}.

Definition legacy_only : GovernanceService :=
  {| useInkeepAgents := false; inkeepAvailable := false |}.

Definition inkeep_in_use : GovernanceService :=
  {| useInkeepAgents := true; inkeepAvailable := true |}.

(** A remote client whose call always throws. *)
Definition failing_client : RemoteClient :=
  fun _ _ _ => Throw "fetch failed".

(** The service as its constructor leaves it under an empty environment,
    once the first probe has found the remote endpoint down. *)
Definition default_remote_down : GovernanceService :=
  checkInkeepAvailability (GovernanceService_new ∅) (Fulfilled false).

Definition remote_finding (description : string) : Violation :=
  {| v_type := "illegal_activity";
     v_description := description;
     v_reason := "remote analysis";
     v_severity := 9;
     v_confidence := 0.85;
     v_regulatoryFramework := None |}.

(** Remote clients that answer with one, or with two, findings of the type
    the local detector also reports for [wifi_question]. *)
Definition one_finding_client : RemoteClient :=
  fun _ _ _ =>
    Ok (Some {| rr_violations := Some [remote_finding "first"];
                rr_agentActions := Some [] |}).

Definition two_findings_client : RemoteClient :=
  fun _ _ _ =>
    Ok (Some {| rr_violations :=
                  Some [remote_finding "first"; remote_finding "second"];
                rr_agentActions := Some [] |}).

(** A probe network for an endpoint that answers the health request with
    the status 204. *)
Definition healthy_network : ProbeNetwork :=
  {| URL_new := fun s => Ok {| protocol := "http:"; href := s |};
     request_events := fun _ _ _ => [EvResponse 204] |}.

Definition enabled_service : InkeepAgentsService :=
  {| baseUrl := "http://localhost:3003"; isEnabled := true |}.

Definition wifi_question : string := "How do I hack into my neighbor's wifi?".
Definition refusal : string := "I cannot help with that request.".

(** ** The other calls of inkeepAgentsService.js *)

(** A parsed response body that the services hand on without reading it,
    represented by its text. *)
Definition RawJson : Type := string.

Record ConversationResponse : Type := mkConversationResponse {
  cr_status : Z;
  cr_json : Result RawJson              (* await response.json() *)
}.

Definition cr_ok (r : ConversationResponse) : bool :=
  ((200 <=? cr_status r) && (cr_status r <=? 299))%Z.

Definition ConversationsFetch : Type :=
  Conversations.Request -> Result ConversationResponse.

Definition conversations_post (svc : InkeepAgentsService)
    (graph message : string) : Conversations.Request :=
  {| Conversations.url := baseUrl svc ++ "/conversations";
     Conversations.method := "POST";
     Conversations.headers := [ ("Content-Type", "application/json") ];
     Conversations.body :=
       {| Conversations.graphId := graph; Conversations.message := message |} |}.

Record Feedback : Type := mkFeedback {
  rating : string;
  comment : option string
}.

Record FeedbackResult : Type := mkFeedbackResult {
  feedbackProcessed : bool;
  auditLogCreated : bool;
  fb_raw : RawJson
}.

Module Inkeep.

Definition feedback_message (interactionId : string) (feedback : Feedback)
  : string :=
  "Please process user feedback for interaction " ++ interactionId ++ ":"
    ++ nl ++ "Type: " ++ rating feedback
    ++ nl ++ (if truthy (comment feedback)
              then "Comment: " ++ default EmptyString (comment feedback)
              else EmptyString).

(** [processFeedback] (inkeepAgentsService.js lines 75-87). *)
Definition processFeedback (svc : InkeepAgentsService)
    (fetch : ConversationsFetch) (interactionId : string) (feedback : Feedback)
  : Result FeedbackResult :=
  response ← fetch (conversations_post svc "compliance-audit-graph"
                      (feedback_message interactionId feedback));
  if negb (cr_ok response) then
    Throw ("Inkeep agents API error: " ++ pretty (cr_status response))
  else
    result ← cr_json response;
    Ok {| feedbackProcessed := true; auditLogCreated := true; fb_raw := result |}.

(** [getGovernanceInsights] (inkeepAgentsService.js lines 89-101); the
    argument defaults to 'today'. *)
Definition getGovernanceInsights (svc : InkeepAgentsService)
    (fetch : ConversationsFetch) (timeframe : option string) : Result RawJson :=
  let timeframe := default "today" timeframe in
  response ← fetch (conversations_post svc "compliance-audit-graph"
                      ("Provide governance insights for " ++ timeframe ++ "."));
  if negb (cr_ok response) then
    Throw ("Inkeep agents API error: " ++ pretty (cr_status response))
  else
    result ← cr_json response;
    Ok result.

End Inkeep.

(** ** The other calls of governanceService.js *)

(** What [getGovernanceInsights] returns: the object [{ raw }] of the remote
    tier, or the fixed summary of the legacy tier. *)
Inductive Insights : Type :=
| RemoteInsights (raw : RawJson)
| LocalSummary (totalInteractions totalViolations blockedCount : Z)
    (approvalRate : string).

(** [getGovernanceInsights] (governanceService.js lines 322-327). *)
Definition getGovernanceInsights (gov : GovernanceService)
    (svc : InkeepAgentsService) (fetch : ConversationsFetch)
    (timeframe : option string) : Result Insights :=
  let timeframe := default "today" timeframe in
  if useInkeepAgents gov && inkeepAvailable gov then
    raw ← Inkeep.getGovernanceInsights svc fetch (Some timeframe);
    Ok (RemoteInsights raw)
  else Ok (LocalSummary 0 0 0 "100%").

(** The orchestrator once the probe started by its constructor has settled;
    both services read the same environment. *)
Definition boot (env : Env) (net : ProbeNetwork) : GovernanceService :=
  checkInkeepAvailability (GovernanceService_new env)
    (isAvailable (InkeepAgentsService_new env) net).

(** ** The earlier revision of processInteraction

    [governanceService.js] lines 25-74: the remote tier and the legacy
    detection exclude each other, and one [try] covers both. *)
Module Earlier.

(** A client whose result is an object; [violations] and [agentActions] may
    be missing. *)
Definition DirectClient : Type :=
  string -> string -> option Context -> Result RemoteResult.

(** The same client as the later revision sees it. *)
Definition lift (client : DirectClient) : RemoteClient :=
  fun input output context =>
    result ← client input output context;
    Ok (Some result).

(** [logged_at] is the reading of [Date] in the [catch] clause. *)
Definition processInteraction (gov : GovernanceService) (remote : DirectClient)
    (rt : Runtime) (logged_at : Timestamp) (input output : string)
    (context : option Context) : Result Interaction :=
  let interaction := new_interaction rt input output in
  interaction ←
    try_catch
      (if useInkeep gov then
         result ← remote input output context;
         Ok (push_actions
               (push_violations interaction (default [] (rr_violations result)))
               (default [] (rr_agentActions result)))
       else
         let violations := detectViolations input output in
         Ok (push_actions (push_violations interaction violations)
               [ {| a_agentName := "LegacyPolicyEnforcer";
                    a_action :=
                      if (0 <? length violations)%nat then ActBlock
                      else ActApprove;
                    a_details :=
                      "Detected " ++ pretty (length violations)
                        ++ " violation(s)";
                    a_timestamp := Date_at rt AtLegacyAction |} ]))
      (fun message =>
         Ok (push_actions interaction
               [ {| a_agentName := "GovernanceService";
                    a_action := ActLog;
                    a_details := "Processing error: " ++ message;
                    a_timestamp := logged_at |} ]));
  Ok (finalize interaction).

End Earlier.

(** ** More vocabulary *)

(** A lower bound on the length of the words a pattern matches. *)
Fixpoint min_length (r : regex) : nat :=
  match r with
  | RVoid => 0
  | REps => 0
  | RAtom _ => 1
  | RClass _ => 1
  | RSeq r1 r2 => min_length r1 + min_length r2
  | RAlt r1 r2 => Nat.min (min_length r1) (min_length r2)
  | RStar _ => 0
  | RPlus r1 => min_length r1
  | ROpt _ => 0
  end.


(** ** More sample values *)

Definition answer (status : Z) (text : string) : HttpResponse :=
  {| resp_status := status;
     resp_text := Ok text;
     resp_json :=
       Ok (body_of {| resp_content := Some text; resp_message := None |}) |}.




Definition failing_direct : Earlier.DirectClient :=
  fun _ _ _ => Throw "fetch failed".

(** * Properties *)

(** ** The matcher decides the language of the pattern *)

Module RegexFacts.

Lemma matches_seq_inv r1 r2 s :
  matches (RSeq r1 r2) s ->
  exists s1 s2, s = (s1 ++ s2)%list /\ matches r1 s1 /\ matches r2 s2.
Proof. inversion 1; subst; eauto. Qed.

Lemma matches_alt_inv r1 r2 s :
  matches (RAlt r1 r2) s -> matches r1 s \/ matches r2 s.
Proof. inversion 1; subst; auto. Qed.

Lemma matches_plus_inv r s :
  matches (RPlus r) s ->
  exists s1 s2, s = (s1 ++ s2)%list /\ matches r s1 /\ matches (RStar r) s2.
Proof. inversion 1; subst; eauto. Qed.

Lemma matches_void s : ~ matches RVoid s.
Proof. inversion 1. Qed.

Lemma matches_eps_inv s : matches REps s -> s = [].
Proof. inversion 1; reflexivity. Qed.

Lemma mk_seq_matches r1 r2 s :
  matches (mk_seq r1 r2) s <-> matches (RSeq r1 r2) s.
Proof.
  split.
  - destruct r1, r2; simpl; intros H;
      try exact H; try (exfalso; exact (matches_void _ H));
      change s with ([] ++ s)%list; constructor; (exact MEps || exact H).
  - intros H. apply matches_seq_inv in H as (s1 & s2 & -> & H1 & H2).
    destruct r1, r2; simpl;
      try (exfalso; exact (matches_void _ H1));
      try (exfalso; exact (matches_void _ H2));
      try (apply matches_eps_inv in H1; subst; exact H2);
      constructor; assumption.
Qed.

Lemma mk_alt_matches r1 r2 s :
  matches (mk_alt r1 r2) s <-> matches (RAlt r1 r2) s.
Proof.
  split.
  - destruct r1, r2; simpl; intros H;
      try exact H; try (apply MAltR; exact H); try (apply MAltL; exact H).
  - intros H. apply matches_alt_inv in H as [H | H];
      destruct r1, r2; simpl;
      try (exfalso; exact (matches_void _ H));
      try exact H; try (apply MAltL; exact H); try (apply MAltR; exact H).
Qed.

Lemma nullable_matches r : nullable r = true <-> matches r [].
Proof.
  induction r; simpl.
  - split; [discriminate | intros H; inversion H].
  - split; [constructor | reflexivity].
  - split; [discriminate | intros H; inversion H].
  - split; [discriminate | intros H; inversion H].
  - rewrite andb_true_iff, IHr1, IHr2. split.
    + intros [H1 H2]. change (@nil ascii) with (@nil ascii ++ [])%list.
      constructor; assumption.
    + intros H. apply matches_seq_inv in H as (s1 & s2 & E & H1 & H2).
      symmetry in E. apply app_eq_nil in E as [-> ->]. auto.
  - rewrite orb_true_iff, IHr1, IHr2. split.
    + intros [H | H]; [apply MAltL | apply MAltR]; exact H.
    + apply matches_alt_inv.
  - split; [constructor | reflexivity].
  - rewrite IHr. split.
    + intros H. change (@nil ascii) with (@nil ascii ++ [])%list.
      constructor; [exact H | constructor].
    + intros H. apply matches_plus_inv in H as (s1 & s2 & E & H1 & H2).
      symmetry in E. apply app_eq_nil in E as [-> ->]. exact H1.
  - split; [constructor | reflexivity].
Qed.

(** A star that reads a non-empty word reads a non-empty first chunk. *)
Lemma matches_star_cons r c s :
  matches (RStar r) (c :: s) ->
  exists s1 s2, s = (s1 ++ s2)%list /\ matches r (c :: s1) /\ matches (RStar r) s2.
Proof.
  intros H. remember (RStar r) as r0 eqn:Er. remember (c :: s) as w eqn:Ew.
  revert c s Ew.
  induction H; intros c0 s0 Ew; try discriminate.
  injection Er as ->.
  destruct s1 as [| a s1'].
  - simpl in Ew. apply (IHmatches2 eq_refl _ _ Ew).
  - simpl in Ew. injection Ew as -> <-. eauto.
Qed.

Lemma deriv_matches c r s :
  matches (deriv c r) s <-> matches r (c :: s).
Proof.
  revert s. induction r; intros s; simpl.
  - split; inversion 1.
  - split; inversion 1.
  - destruct (accepts a c) eqn:Ea; split; intros H.
    + apply matches_eps_inv in H as ->. constructor; exact Ea.
    + inversion H; subst. constructor.
    + inversion H.
    + inversion H; subst. congruence.
  - destruct (class_accepts members c) eqn:Ea; split; intros H.
    + apply matches_eps_inv in H as ->. constructor; exact Ea.
    + inversion H; subst. constructor.
    + inversion H.
    + inversion H; subst. congruence.
  - rewrite mk_alt_matches. split.
    + intros H. apply matches_alt_inv in H as [H | H].
      * apply mk_seq_matches, matches_seq_inv in H as (s1 & s2 & -> & H1 & H2).
        apply IHr1 in H1.
        change (c :: s1 ++ s2)%list with ((c :: s1) ++ s2)%list.
        constructor; assumption.
      * destruct (nullable r1) eqn:En; [| inversion H].
        apply IHr2 in H. apply nullable_matches in En.
        change (c :: s) with ([] ++ c :: s)%list. constructor; assumption.
    + intros H. apply matches_seq_inv in H as (s1 & s2 & E & H1 & H2).
      destruct s1 as [| a s1'].
      * simpl in E. subst s2. apply MAltR.
        apply nullable_matches in H1. rewrite H1. apply IHr2. exact H2.
      * simpl in E. injection E as <- ->. apply MAltL.
        apply mk_seq_matches. constructor; [apply IHr1; exact H1 | exact H2].
  - rewrite mk_alt_matches. split.
    + intros H. apply matches_alt_inv in H as [H | H];
        [apply MAltL, IHr1 | apply MAltR, IHr2]; exact H.
    + intros H. apply matches_alt_inv in H as [H | H];
        [apply MAltL, IHr1 | apply MAltR, IHr2]; exact H.
  - rewrite mk_seq_matches. split.
    + intros H. apply matches_seq_inv in H as (s1 & s2 & -> & H1 & H2).
      apply IHr in H1.
      change (c :: s1 ++ s2)%list with ((c :: s1) ++ s2)%list.
      constructor; assumption.
    + intros H. apply matches_star_cons in H as (s1 & s2 & -> & H1 & H2).
      constructor; [apply IHr; exact H1 | exact H2].
  - rewrite mk_seq_matches. split.
    + intros H. apply matches_seq_inv in H as (s1 & s2 & -> & H1 & H2).
      apply IHr in H1.
      change (c :: s1 ++ s2)%list with ((c :: s1) ++ s2)%list.
      constructor; assumption.
    + intros H. apply matches_plus_inv in H as (s1 & s2 & E & H1 & H2).
      destruct s1 as [| a s1'].
      * simpl in E. subst s2.
        apply matches_star_cons in H2 as (t1 & t2 & -> & Ht1 & Ht2).
        constructor; [apply IHr; exact Ht1 | exact Ht2].
      * simpl in E. injection E as <- ->.
        constructor; [apply IHr; exact H1 | exact H2].
  - split.
    + intros H. apply MOptSome, IHr. exact H.
    + intros H. inversion H; subst. apply IHr. assumption.
Qed.

Lemma match_prefix_spec r s :
  match_prefix r s = true <->
  exists p q, s = (p ++ q)%list /\ matches r p.
Proof.
  revert r. induction s as [| c s IH]; intros r; simpl.
  - rewrite orb_false_r, nullable_matches. split.
    + intros H. exists [], []. auto.
    + intros (p & q & E & H). symmetry in E.
      apply app_eq_nil in E as [-> ->]. exact H.
  - rewrite orb_true_iff, nullable_matches, IH. split.
    + intros [H | (p & q & -> & H)].
      * exists [], (c :: s). auto.
      * exists (c :: p), q. split; [reflexivity | apply deriv_matches; exact H].
    + intros (p & q & E & H). destruct p as [| a p].
      * left. exact H.
      * simpl in E. injection E as <- ->. right.
        exists p, q. split; [reflexivity | apply deriv_matches; exact H].
Qed.

(** [search] finds a match exactly when some substring of the subject is in
    the language of the pattern. *)
Lemma search_spec r s :
  search r s = true <->
  exists a p q, s = (a ++ p ++ q)%list /\ matches r p.
Proof.
  induction s as [| c s IH]; cbn [search].
  - rewrite orb_false_r. rewrite match_prefix_spec. split.
    + intros (p & q & E & H). exists [], p, q. auto.
    + intros (a & p & q & E & H). symmetry in E.
      apply app_eq_nil in E as [-> E]. exists p, q. split; [exact (eq_sym E) | exact H].
  - rewrite orb_true_iff, match_prefix_spec, IH. split.
    + intros [(p & q & E & H) | (a & p & q & -> & H)].
      * exists [], p, q. auto.
      * exists (c :: a), p, q. auto.
    + intros (a & p & q & E & H). destruct a as [| x a].
      * left. exists p, q. auto.
      * simpl in E. injection E as <- ->. right. exists a, p, q. auto.
Qed.

(** A match found in a text is still found when the text is extended. *)
Lemma search_app_r r s t : search r s = true -> search r (s ++ t) = true.
Proof.
  rewrite !search_spec. intros (a & p & q & -> & H).
  exists a, p, (q ++ t)%list. split; [| exact H].
  now rewrite <- !app_assoc.
Qed.

Lemma search_app_l r s t : search r t = true -> search r (s ++ t) = true.
Proof.
  rewrite !search_spec. intros (a & p & q & -> & H).
  exists (s ++ a)%list, p, q. split; [| exact H].
  now rewrite <- !app_assoc.
Qed.

End RegexFacts.

(** ** The detector and the stages of [processInteraction] *)

Section Detector.

Variables (guard : list Violation -> bool) (v : Violation) (text : string).

(** A loop with [break] pushes at most once, and does so exactly when one
    of its patterns matches while its condition on [violations] holds. *)
Lemma scan_spec patterns violations :
  scan guard v text patterns violations =
  if hit patterns text && guard violations
  then (violations ++ [v])%list else violations.
Proof.
  induction patterns as [| pattern rest IH]; simpl; [reflexivity |].
  rewrite IH. unfold hit.
  destruct (test pattern text), (guard violations); simpl;
    rewrite ?andb_true_r, ?andb_false_r; reflexivity.
Qed.

End Detector.

Lemma detectViolations_spec input output :
  let text := detection_text input output in
  detectViolations input output =
    ((if hit wifiHackingPatterns text then [wifiViolation]
      else if hit hackingPatterns text then [hackingViolation] else [])
     ++ (if hit violencePatterns text then [violenceViolation] else [])
     ++ (if hit piiPatterns text then [piiViolation] else []))%list.
Proof.
  intros text. unfold detectViolations. fold text. rewrite !scan_spec.
  unfold always, none_so_far.
  destruct (hit wifiHackingPatterns text), (hit hackingPatterns text),
    (hit violencePatterns text), (hit piiPatterns text); reflexivity.
Qed.

Lemma detectViolations_types input output v :
  v ∈ detectViolations input output ->
  v_type v ∈ ["illegal_activity"; "violence"; "gdpr"].
Proof.
  pose proof (detectViolations_spec input output) as E. cbv zeta in E.
  rewrite E. clear E. set (text := detection_text input output).
  destruct (hit wifiHackingPatterns text), (hit hackingPatterns text),
    (hit violencePatterns text), (hit piiPatterns text); simpl; intros H;
    repeat (apply elem_of_cons in H; destruct H as [-> | H]);
    try (apply elem_of_nil in H; contradiction);
    simpl; rewrite !elem_of_cons; auto.
Qed.

Section Merge.

Variable existingTypes : gset string.

Let step (acc : Interaction) (v : Violation) : Interaction :=
  if bool_decide (v_type v ∈ existingTypes) then acc
  else push_violations acc [v].

Lemma merge_violations violations interaction :
  i_violations (fold_left step violations interaction) =
  (i_violations interaction
     ++ filter (fun v => v_type v ∉ existingTypes) violations)%list.
Proof.
  revert interaction.
  induction violations as [| v vs IH]; intros interaction; simpl.
  - now rewrite app_nil_r.
  - rewrite IH. unfold step. rewrite filter_cons.
    destruct (decide (v_type v ∉ existingTypes)) as [Hn | Hy].
    + rewrite bool_decide_eq_false_2 by exact Hn. simpl.
      now rewrite <- app_assoc.
    + rewrite bool_decide_eq_true_2; [reflexivity |].
      destruct (decide (v_type v ∈ existingTypes)); [assumption | contradiction].
Qed.

Lemma merge_actions violations interaction :
  i_agentActions (fold_left step violations interaction) =
  i_agentActions interaction.
Proof.
  revert interaction.
  induction violations as [| v vs IH]; intros interaction; simpl;
    [reflexivity |].
  rewrite IH. unfold step. now destruct (bool_decide _).
Qed.

End Merge.

(** The merge keeps what the remote stage left and appends the local findings
    whose type is not there yet. *)
Lemma local_stage_violations rt input output interaction inkeepSuccess :
  i_violations (local_stage rt input output interaction inkeepSuccess) =
  (i_violations interaction
     ++ filter (fun v => v_type v ∉ map v_type (i_violations interaction))
          (detectViolations input output))%list.
Proof.
  unfold local_stage.
  destruct (0 <? length (detectViolations input output))%nat eqn:E.
  - cbn [i_violations push_actions]. rewrite merge_violations. f_equal.
    apply list_filter_iff. intros x. now rewrite elem_of_list_to_set.
  - destruct (detectViolations input output); [| discriminate E].
    now rewrite app_nil_r.
Qed.

Lemma local_stage_actions rt input output interaction inkeepSuccess :
  i_agentActions (local_stage rt input output interaction inkeepSuccess) =
  (i_agentActions interaction
     ++ (if (0 <? length (detectViolations input output))%nat then
           [ {| a_agentName :=
                  if inkeepSuccess then "LegacyPolicyEnforcer (Verification)"
                  else "LegacyPolicyEnforcer";
                a_action := ActBlock;
                a_details :=
                  "Detected " ++ pretty (length (detectViolations input output))
                    ++ " violation(s)";
                a_timestamp := Date_at rt AtLegacyAction |} ]
         else []))%list.
Proof.
  unfold local_stage.
  destruct (0 <? length (detectViolations input output))%nat eqn:E.
  - cbn [i_agentActions push_actions]. now rewrite merge_actions.
  - now rewrite app_nil_r.
Qed.

Lemma finalize_violations interaction :
  i_violations (finalize interaction) = i_violations interaction.
Proof. unfold finalize. now destruct (verdict _). Qed.

Lemma finalize_actions interaction :
  i_agentActions (finalize interaction) = i_agentActions interaction.
Proof. unfold finalize. now destruct (verdict _). Qed.

Lemma finalize_verdict interaction :
  (i_status (finalize interaction), i_severity (finalize interaction)) =
  verdict (i_violations interaction).
Proof. unfold finalize. now destruct (verdict _). Qed.

(** The remote stage never throws: a failure of the client is caught. *)
Lemma remote_stage_total gov remote rt input output context interaction :
  exists staged inkeepSuccess,
    remote_stage gov remote rt input output context interaction
    = Ok (staged, inkeepSuccess).
Proof.
  unfold remote_stage. destruct (useInkeep gov); [| eauto].
  destruct (remote input output context) as [[r |] | message]; simpl; eauto.
  destruct (rr_violations r) as [violations |]; eauto.
  destruct (0 <? length violations)%nat; eauto.
Qed.

Lemma remote_stage_unused gov remote rt input output context interaction :
  useInkeep gov = false ->
  remote_stage gov remote rt input output context interaction
  = Ok (interaction, false).
Proof. unfold remote_stage. now intros ->. Qed.

Lemma processInteraction_stages gov remote rt input output context staged ok :
  remote_stage gov remote rt input output context
    (new_interaction rt input output) = Ok (staged, ok) ->
  processInteraction gov remote rt input output context
  = Ok (finalize (local_stage rt input output staged ok)).
Proof. unfold processInteraction. now intros ->. Qed.

(** ** The escalation rules *)

Lemma sev_ge_iff bound v : sev_ge bound v = true <-> (bound <= v_severity v)%Q.
Proof. unfold sev_ge. apply Qle_bool_iff. Qed.

Lemma some_sev_ge bound (violations : list Violation) :
  existsb (sev_ge bound) violations = true <->
  exists v, v ∈ violations /\ (bound <= v_severity v)%Q.
Proof.
  rewrite existsb_exists. split; intros (v & Hin & Hv); exists v;
    (split; [apply list_elem_of_In; exact Hin | apply sev_ge_iff; exact Hv]).
Qed.

Lemma filter_all {A} (P : A -> Prop) `{!forall x, Decision (P x)} (l : list A) :
  (forall x, x ∈ l -> P x) -> filter P l = l.
Proof.
  induction l as [| a l IH]; intros Hall; [reflexivity |].
  rewrite filter_cons_True by (apply Hall; left).
  f_equal. apply IH. intros x Hx. apply Hall. now right.
Qed.

Lemma length_zero_iff {A} (l : list A) : Nat.eqb (length l) 0 = true <-> l = [].
Proof. destruct l; simpl; split; (reflexivity || discriminate). Qed.

(** ** Escalation *)

Lemma verdict_nil : verdict [] = (Approved, Low).
Proof. reflexivity. Qed.

Lemma verdict_blocked violations :
  existsb (sev_ge 9) violations = true -> verdict violations = (Blocked, Critical).
Proof.
  intros H. unfold verdict. rewrite H.
  destruct violations; [discriminate H | reflexivity].
Qed.

Lemma verdict_high violations :
  existsb (sev_ge 9) violations = false ->
  existsb (sev_ge 7) violations = true -> verdict violations = (Pending, High).
Proof.
  intros H9 H7. unfold verdict. rewrite H9, H7.
  destruct violations; [discriminate H7 | reflexivity].
Qed.

Lemma verdict_medium violations :
  violations <> [] ->
  existsb (sev_ge 9) violations = false ->
  existsb (sev_ge 7) violations = false -> verdict violations = (Pending, Medium).
Proof.
  intros Hne H9 H7. unfold verdict. rewrite H9, H7.
  destruct violations; [contradiction | reflexivity].
Qed.

Lemma not_some_sev_ge bound (violations : list Violation) :
  ~ (exists v, v ∈ violations /\ (bound <= v_severity v)%Q) ->
  existsb (sev_ge bound) violations = false.
Proof.
  intros H. destruct (existsb (sev_ge bound) violations) eqn:E; [| reflexivity].
  exfalso. apply H. apply some_sev_ge. exact E.
Qed.

(** Claim C1.  The finalized interaction keeps the merged violations and gets
    its status and severity from them by the first rule that applies: no
    violation gives approved/low; otherwise some severity at or above 9 gives
    blocked/critical; otherwise some severity at or above 7 gives
    pending/high; otherwise pending/medium.  Hence the status is blocked
    exactly when some violation has severity at least 9, and approved exactly
    when there is no violation.  Every interaction that [processInteraction]
    returns is finalized in this way. *)
Theorem C1_escalation_rules :
  (forall interaction : Interaction,
     let violations := i_violations interaction in
     let final := finalize interaction in
     let some_at_least (bound : Q) :=
       exists v, v ∈ violations /\ (bound <= v_severity v)%Q in
     i_violations final = violations
     /\ (violations = [] -> i_status final = Approved /\ i_severity final = Low)
     /\ (violations <> [] -> some_at_least 9%Q ->
         i_status final = Blocked /\ i_severity final = Critical)
     /\ (violations <> [] -> ~ some_at_least 9%Q -> some_at_least 7%Q ->
         i_status final = Pending /\ i_severity final = High)
     /\ (violations <> [] -> ~ some_at_least 9%Q -> ~ some_at_least 7%Q ->
         i_status final = Pending /\ i_severity final = Medium)
     /\ (i_status final = Blocked <-> some_at_least 9%Q)
     /\ (i_status final = Approved <-> violations = []))
  /\ (forall gov remote rt input output context,
        exists merged,
          processInteraction gov remote rt input output context
          = Ok (finalize merged)).
Proof.
  split.
  - intros interaction violations final some_at_least.
    pose proof (finalize_verdict interaction) as Hv. fold violations final in Hv.
    assert (Hcase : forall st sev,
               verdict violations = (st, sev) ->
               i_status final = st /\ i_severity final = sev).
    { intros st sev E. rewrite E in Hv. now inversion Hv. }
    split; [apply finalize_violations |].
    split; [intros E; apply Hcase; rewrite E; apply verdict_nil |].
    split; [intros _ H9; apply Hcase, verdict_blocked, some_sev_ge, H9 |].
    split.
    { intros _ N9 H7. apply Hcase, verdict_high;
        [apply not_some_sev_ge, N9 | apply some_sev_ge, H7]. }
    split.
    { intros Hne N9 N7. apply Hcase, verdict_medium;
        [exact Hne | apply not_some_sev_ge, N9 | apply not_some_sev_ge, N7]. }
    split.
    + split.
      * intros Hb. apply some_sev_ge.
        destruct (existsb (sev_ge 9) violations) eqn:E9; [reflexivity |].
        exfalso. revert Hv. rewrite Hb. unfold verdict. rewrite E9.
        destruct (length violations =? 0)%nat; [discriminate |].
        destruct (existsb (sev_ge 7) violations); discriminate.
      * intros H9. apply (Hcase Blocked Critical), verdict_blocked, some_sev_ge, H9.
    + split.
      * intros Ha. apply length_zero_iff.
        destruct (length violations =? 0)%nat eqn:E0; [reflexivity |].
        exfalso. revert Hv. rewrite Ha. unfold verdict. rewrite E0.
        destruct (existsb (sev_ge 9) violations); [discriminate |].
        destruct (existsb (sev_ge 7) violations); discriminate.
      * intros E. apply (Hcase Approved Low). rewrite E. apply verdict_nil.
  - intros gov remote rt input output context.
    destruct (remote_stage_total gov remote rt input output context
                (new_interaction rt input output)) as (staged & ok & Hs).
    eexists. apply processInteraction_stages. exact Hs.
Qed.

(** A run with the remote tier disabled goes straight to the local stage. *)
Lemma disabled_run gov remote rt input output context :
  useInkeepAgents gov = false ->
  processInteraction gov remote rt input output context =
  Ok (finalize
        (local_stage rt input output (new_interaction rt input output) false)).
Proof.
  intros Hoff. apply processInteraction_stages, remote_stage_unused.
  unfold useInkeep. now rewrite Hoff.
Qed.

(** On an interaction without violations the merge keeps every local
    finding. *)
Lemma local_stage_from_empty rt input output interaction ok :
  i_violations interaction = [] ->
  i_violations (local_stage rt input output interaction ok)
  = detectViolations input output.
Proof.
  intros Hempty. rewrite local_stage_violations, Hempty. simpl.
  apply filter_all. intros v _. apply not_elem_of_nil.
Qed.

(** Claim C2.  When the remote tier is disabled ([useInkeepAgents] false), the
    interaction returned for any input and output has exactly the violations
    of [#detectViolations], in the same order; its status and severity are
    the verdict of the escalation rules on that list; the only action
    recorded is the one of the legacy enforcer, present when the detector
    found something. *)
Theorem C2_backstop_when_disabled gov remote rt input output context :
  useInkeepAgents gov = false ->
  exists interaction,
    processInteraction gov remote rt input output context = Ok interaction
    /\ i_violations interaction = detectViolations input output
    /\ (i_status interaction, i_severity interaction)
       = verdict (detectViolations input output)
    /\ i_agentActions interaction =
       if (0 <? length (detectViolations input output))%nat then
         [ {| a_agentName := "LegacyPolicyEnforcer";
              a_action := ActBlock;
              a_details :=
                "Detected " ++ pretty (length (detectViolations input output))
                  ++ " violation(s)";
              a_timestamp := Date_at rt AtLegacyAction |} ]
       else [].
Proof.
  intros Hoff. eexists. split; [apply disabled_run; exact Hoff |].
  rewrite finalize_violations, finalize_verdict, finalize_actions.
  rewrite local_stage_from_empty by reflexivity.
  split; [reflexivity |]. split; [reflexivity |].
  rewrite local_stage_actions. reflexivity.
Qed.

(** Claim C2 on the wifi question, with the remote tier disabled. *)
Lemma C2_backstop_when_disabled_witness :
  useInkeepAgents legacy_only = false
  /\ exists interaction,
       processInteraction legacy_only failing_client sample_runtime
         wifi_question refusal None = Ok interaction
       /\ i_violations interaction = detectViolations wifi_question refusal
       /\ (i_status interaction, i_severity interaction)
          = verdict (detectViolations wifi_question refusal)
       /\ i_agentActions interaction =
          if (0 <? length (detectViolations wifi_question refusal))%nat then
            [ {| a_agentName := "LegacyPolicyEnforcer";
                 a_action := ActBlock;
                 a_details :=
                   "Detected "
                     ++ pretty (length (detectViolations wifi_question refusal))
                     ++ " violation(s)";
                 a_timestamp := Date_at sample_runtime AtLegacyAction |} ]
          else [].
Proof.
  split; [reflexivity |].
  apply (C2_backstop_when_disabled legacy_only failing_client sample_runtime
           wifi_question refusal None).
  reflexivity.
Defined.

(** Claim C3.  Whatever the configuration of the remote tier and whatever the
    remote call does, [processInteraction] returns an interaction whose
    violations are the ones left by the remote stage followed by the findings
    of the local detector, run on the same input and output, whose type the
    remote stage did not already report; so every such local finding is in
    the result, and when the detector found something its pass is recorded
    as the last action. *)
Theorem C3_local_detector_always_runs gov remote rt input output context :
  exists staged inkeepSuccess interaction,
    remote_stage gov remote rt input output context
      (new_interaction rt input output) = Ok (staged, inkeepSuccess)
    /\ processInteraction gov remote rt input output context = Ok interaction
    /\ i_violations interaction =
       (i_violations staged
          ++ filter (fun v => v_type v ∉ map v_type (i_violations staged))
               (detectViolations input output))%list
    /\ (forall v,
          v ∈ detectViolations input output ->
          v_type v ∉ map v_type (i_violations staged) ->
          v ∈ i_violations interaction)
    /\ (detectViolations input output <> [] ->
        exists enforcer,
          i_agentActions interaction
          = (i_agentActions staged ++ [enforcer])%list
          /\ a_action enforcer = ActBlock
          /\ a_details enforcer =
             "Detected " ++ pretty (length (detectViolations input output))
               ++ " violation(s)").
Proof.
  destruct (remote_stage_total gov remote rt input output context
              (new_interaction rt input output)) as (staged & ok & Hs).
  exists staged, ok. eexists. split; [exact Hs |].
  split; [apply processInteraction_stages; exact Hs |].
  rewrite finalize_violations, local_stage_violations.
  split; [reflexivity |].
  split.
  - intros v Hin Hfresh. apply elem_of_app. right.
    apply list_elem_of_filter. split; assumption.
  - intros Hfound. rewrite finalize_actions, local_stage_actions.
    destruct (detectViolations input output) as [| v vs]; [contradiction |].
    eexists. split; [reflexivity |]. split; reflexivity.
Qed.

(** ** Remote failure *)

Lemma remote_stage_failure gov remote rt input output context interaction message :
  useInkeep gov = true ->
  remote input output context = Throw message ->
  remote_stage gov remote rt input output context interaction =
  Ok (push_actions interaction
        [ {| a_agentName := "InkeepGovernance";
             a_action := ActError;
             a_details := "Inkeep error: " ++ message;
             a_timestamp := Date_at rt AtInkeepError |} ],
      false).
Proof. unfold remote_stage. now intros -> ->. Qed.

Lemma remote_stage_success gov remote rt input output context interaction r v vs :
  useInkeep gov = true ->
  remote input output context = Ok (Some r) ->
  rr_violations r = Some (v :: vs) ->
  remote_stage gov remote rt input output context interaction =
  Ok (push_actions (push_violations interaction (v :: vs))
        (default [] (rr_agentActions r)),
      true).
Proof. unfold remote_stage. intros -> -> Hv. simpl. now rewrite Hv. Qed.

Lemma filter_none {A} (P : A -> Prop) `{!forall x, Decision (P x)} (l : list A) :
  (forall x, x ∈ l -> ~ P x) -> filter P l = [].
Proof.
  induction l as [| a l IH]; intros Hall; [reflexivity |].
  rewrite filter_cons_False by (apply Hall; left).
  apply IH. intros x Hx. apply Hall. now right.
Qed.

Lemma legacy_action_not_error rt input output :
  filter is_error_action
    (if (0 <? length (detectViolations input output))%nat then
       [ {| a_agentName := "LegacyPolicyEnforcer";
            a_action := ActBlock;
            a_details :=
              "Detected " ++ pretty (length (detectViolations input output))
                ++ " violation(s)";
            a_timestamp := Date_at rt AtLegacyAction |} ]
     else []) = [].
Proof. now destruct (0 <? length (detectViolations input output))%nat. Qed.

(** Claim C4, as the code has it.  When the call of the remote client throws,
    [processInteraction] still returns: the violations are exactly the local
    ones, status and severity are their verdict, and the actions hold exactly
    one error entry, carrying the message of the failure, provided the remote
    tier is in use ([useInkeepAgents] and [inkeepAvailable] both true); when
    it is not in use the client is not called and no error entry is
    recorded. *)
Theorem C4_remote_failure_isolated gov remote rt input output context message :
  remote input output context = Throw message ->
  exists interaction,
    processInteraction gov remote rt input output context = Ok interaction
    /\ i_violations interaction = detectViolations input output
    /\ (i_status interaction, i_severity interaction)
       = verdict (detectViolations input output)
    /\ filter is_error_action (i_agentActions interaction) =
       if useInkeep gov then
         [ {| a_agentName := "InkeepGovernance";
              a_action := ActError;
              a_details := "Inkeep error: " ++ message;
              a_timestamp := Date_at rt AtInkeepError |} ]
       else [].
Proof.
  intros Hfail.
  set (start := new_interaction rt input output).
  assert (Hstage : exists staged,
             remote_stage gov remote rt input output context start
             = Ok (staged, false)
             /\ i_violations staged = []
             /\ i_agentActions staged =
                if useInkeep gov then
                  [ {| a_agentName := "InkeepGovernance";
                       a_action := ActError;
                       a_details := "Inkeep error: " ++ message;
                       a_timestamp := Date_at rt AtInkeepError |} ]
                else []).
  { destruct (useInkeep gov) eqn:Hu.
    - eexists. split; [apply remote_stage_failure; [exact Hu | exact Hfail] |].
      split; reflexivity.
    - exists start. split; [apply remote_stage_unused; assumption |].
      split; reflexivity. }
  destruct Hstage as (staged & Hs & Hsv & Hsa).
  eexists. split; [apply processInteraction_stages; exact Hs |].
  assert (Hviol : i_violations (local_stage rt input output staged false)
                  = detectViolations input output).
  { rewrite local_stage_violations, Hsv. simpl. apply filter_all.
    intros v _. apply not_elem_of_nil. }
  split; [rewrite finalize_violations; exact Hviol |].
  split; [rewrite finalize_verdict, Hviol; reflexivity |].
  rewrite finalize_actions, local_stage_actions, filter_app, Hsa.
  rewrite legacy_action_not_error, app_nil_r.
  now destruct (useInkeep gov).
Qed.

(** Claim C4 on the wifi question, with the remote tier in use and a client
    that throws. *)
Lemma C4_remote_failure_isolated_witness :
  failing_client wifi_question refusal None = Throw "fetch failed"
  /\ exists interaction,
       processInteraction inkeep_in_use failing_client sample_runtime
         wifi_question refusal None = Ok interaction
       /\ i_violations interaction = detectViolations wifi_question refusal
       /\ (i_status interaction, i_severity interaction)
          = verdict (detectViolations wifi_question refusal)
       /\ filter is_error_action (i_agentActions interaction) =
          if useInkeep inkeep_in_use then
            [ {| a_agentName := "InkeepGovernance";
                 a_action := ActError;
                 a_details := "Inkeep error: " ++ "fetch failed";
                 a_timestamp := Date_at sample_runtime AtInkeepError |} ]
          else [].
Proof.
  split; [reflexivity |].
  apply (C4_remote_failure_isolated inkeep_in_use failing_client sample_runtime
           wifi_question refusal None "fetch failed").
  reflexivity.
Defined.

(** Claim C4 as stated fails.  With the service as constructed under an empty
    environment and the endpoint found down by the probe, a client that always throws is never
    called: the interaction returned holds no error action at all. *)
Lemma C4_counterexample_remote_not_in_use :
  (forall input output context,
      failing_client input output context = Throw "fetch failed")
  /\ exists interaction,
       processInteraction default_remote_down failing_client sample_runtime
         wifi_question refusal None = Ok interaction
       /\ filter is_error_action (i_agentActions interaction) = []
       /\ length (filter is_error_action (i_agentActions interaction)) <> 1.
Proof.
  split; [reflexivity |].
  eexists. split; [vm_compute; reflexivity |].
  split; [vm_compute; reflexivity | vm_compute; discriminate].
Qed.

(** ** Deduplication by type *)

Lemma filter_of_type_merged t (remote_violations local : list Violation) :
  t ∈ map v_type remote_violations ->
  filter (of_type t)
    (remote_violations
       ++ filter (fun v => v_type v ∉ map v_type remote_violations) local)%list
  = filter (of_type t) remote_violations.
Proof.
  intros Ht. rewrite filter_app.
  assert (E : filter (of_type t)
                (filter (fun v => v_type v ∉ map v_type remote_violations) local)
              = []).
  { apply filter_none. intros v Hv Hty.
    apply list_elem_of_filter in Hv as [Hfresh _].
    apply Hfresh. unfold of_type in Hty. now rewrite Hty. }
  rewrite E. apply app_nil_r.
Qed.

(** Claim C5, as the code has it.  When the remote tier is in use and its
    result carries violations, the merged sequence is the remote violations
    followed by the local findings whose type the remote result does not
    contain.  So for a type that the remote tier reported, the entries of
    that type in the merged sequence are exactly the remote-sourced ones, in
    their order, and no local one: exactly one entry when the remote tier
    reported one violation of that type. *)
Theorem C5_dedup_by_type gov remote rt input output context r remote_violations t :
  useInkeep gov = true ->
  remote input output context = Ok (Some r) ->
  rr_violations r = Some remote_violations ->
  t ∈ map v_type remote_violations ->
  exists interaction,
    processInteraction gov remote rt input output context = Ok interaction
    /\ i_violations interaction =
       (remote_violations
          ++ filter (fun v => v_type v ∉ map v_type remote_violations)
               (detectViolations input output))%list
    /\ filter (of_type t) (i_violations interaction)
       = filter (of_type t) remote_violations
    /\ (forall only,
          filter (of_type t) remote_violations = [only] ->
          filter (of_type t) (i_violations interaction) = [only]).
Proof.
  intros Hu Hr Hv Ht.
  destruct remote_violations as [| first rest];
    [apply elem_of_nil in Ht; contradiction |].
  eexists. split.
  { apply processInteraction_stages.
    apply (remote_stage_success _ _ _ _ _ _ _ _ _ _ Hu Hr Hv). }
  rewrite finalize_violations, local_stage_violations.
  cbn [i_violations push_actions push_violations new_interaction app].
  split; [reflexivity |].
  pose proof (filter_of_type_merged t (first :: rest)
                (detectViolations input output) Ht) as Hm.
  split; [exact Hm |].
  intros only Hone. rewrite <- Hone. exact Hm.
Qed.

(** Claim C5 when each tier reports one illegal_activity violation. *)
Lemma C5_dedup_by_type_witness :
  useInkeep inkeep_in_use = true
  /\ "illegal_activity" ∈ map v_type (detectViolations wifi_question refusal)
  /\ exists interaction,
       processInteraction inkeep_in_use one_finding_client sample_runtime
         wifi_question refusal None = Ok interaction
       /\ i_violations interaction =
          ([remote_finding "first"]
             ++ filter (fun v => v_type v ∉ map v_type [remote_finding "first"])
                  (detectViolations wifi_question refusal))%list
       /\ filter (of_type "illegal_activity") (i_violations interaction)
          = filter (of_type "illegal_activity") [remote_finding "first"]
       /\ (forall only,
             filter (of_type "illegal_activity") [remote_finding "first"] = [only] ->
             filter (of_type "illegal_activity") (i_violations interaction)
             = [only]).
Proof.
  split; [reflexivity |].
  split; [vm_compute; left |].
  apply (C5_dedup_by_type inkeep_in_use one_finding_client sample_runtime
           wifi_question refusal None
           {| rr_violations := Some [remote_finding "first"];
              rr_agentActions := Some [] |}
           [remote_finding "first"] "illegal_activity").
  - reflexivity.
  - reflexivity.
  - reflexivity.
  - simpl. left.
Defined.

(** Claim C5 as stated fails.  Both tiers report an [illegal_activity]
    violation, the remote one twice:
    the merged sequence holds two entries of that type, not one. *)
Lemma C5_counterexample_two_remote_entries :
  "illegal_activity" ∈ map v_type (detectViolations wifi_question refusal)
  /\ exists interaction,
       processInteraction inkeep_in_use two_findings_client sample_runtime
         wifi_question refusal None = Ok interaction
       /\ filter (of_type "illegal_activity") (i_violations interaction)
          = [remote_finding "first"; remote_finding "second"]
       /\ length (filter (of_type "illegal_activity") (i_violations interaction))
          <> 1.
Proof.
  split; [vm_compute; left |].
  eexists. split; [vm_compute; reflexivity |].
  split; [vm_compute; reflexivity | vm_compute; discriminate].
Qed.

(** ** The wifi scenario *)

Lemma toLowerCase_app a b :
  JsString.toLowerCase (a ++ b)
  = JsString.toLowerCase a ++ JsString.toLowerCase b.
Proof. induction a as [| c a IH]; simpl; [reflexivity | now rewrite IH]. Qed.

Lemma list_ascii_of_string_app a b :
  list_ascii_of_string (a ++ b)
  = (list_ascii_of_string a ++ list_ascii_of_string b)%list.
Proof. induction a as [| c a IH]; simpl; [reflexivity | now rewrite IH]. Qed.

(** A pattern that matches the lower-cased input matches the text of the
    detector whatever the output is. *)
Lemma test_on_input pattern input output :
  test pattern (JsString.toLowerCase input) = true ->
  test pattern (detection_text input output) = true.
Proof.
  unfold test, detection_text. intros H.
  rewrite toLowerCase_app, list_ascii_of_string_app.
  apply RegexFacts.search_app_r. exact H.
Qed.

Lemma hit_intro patterns pattern text :
  In pattern patterns -> test pattern text = true -> hit patterns text = true.
Proof. intros Hin Ht. apply existsb_exists. eauto. Qed.

Lemma wifi_question_hits output :
  hit wifiHackingPatterns (detection_text wifi_question output) = true.
Proof.
  apply (hit_intro _ (seq [lit "hack"; spaces; lit "into"; any; wifi])).
  - right. left. reflexivity.
  - apply test_on_input. vm_compute. reflexivity.
Qed.

Lemma match_prefix_void s : match_prefix RVoid s = false.
Proof. induction s as [| c s IH]; simpl; [reflexivity | exact IH]. Qed.

Lemma dies_sound r w t : dies r w = true -> match_prefix r (w ++ t) = false.
Proof.
  revert r. induction w as [| c w IH]; intros r; simpl.
  - rewrite andb_false_r. discriminate.
  - intros H. apply andb_true_iff in H as [Hn H].
    apply negb_true_iff in Hn. rewrite Hn. simpl.
    apply orb_true_iff in H as [H | H].
    + destruct (deriv c r); try discriminate. apply match_prefix_void.
    + apply IH. exact H.
Qed.

Lemma starts_nowhere_sound r w t :
  starts_nowhere r w = true -> search r (w ++ t) = search r t.
Proof.
  induction w as [| c w IH]; [reflexivity |].
  cbn [starts_nowhere]. intros H. apply andb_true_iff in H as [Hd Hs].
  change ((c :: w) ++ t)%list with (c :: (w ++ t))%list. cbn [search].
  change (c :: (w ++ t))%list with ((c :: w) ++ t)%list.
  rewrite (dies_sound _ _ _ Hd). simpl. apply IH. exact Hs.
Qed.

Lemma hit_ext patterns text text' :
  (forall pattern, In pattern patterns -> test pattern text = test pattern text') ->
  hit patterns text = hit patterns text'.
Proof.
  unfold hit. induction patterns as [| pattern rest IH]; intros H; simpl;
    [reflexivity |].
  rewrite (H pattern) by now left.
  rewrite IH; [reflexivity |]. intros q Hq. apply H. now right.
Qed.

(** Patterns that cannot start inside the lower-cased input fire on the text
    of the detector exactly when they fire on the output alone. *)
Lemma hit_past_input patterns input output :
  forallb (fun pattern =>
             starts_nowhere pattern
               (list_ascii_of_string (JsString.toLowerCase input)))
          patterns = true ->
  hit patterns (detection_text input output)
  = hit patterns (detection_text EmptyString output).
Proof.
  intros H. apply hit_ext. intros pattern Hin.
  rewrite forallb_forall in H. specialize (H pattern Hin).
  unfold test, detection_text.
  rewrite (toLowerCase_app input), list_ascii_of_string_app.
  apply starts_nowhere_sound. exact H.
Qed.

Lemma innocuous_no_hit output :
  innocuous output ->
  hit violencePatterns (detection_text EmptyString output) = false
  /\ hit piiPatterns (detection_text EmptyString output) = false.
Proof.
  unfold innocuous.
  pose proof (detectViolations_spec EmptyString output) as E. cbv zeta in E.
  rewrite E. clear E. set (text := detection_text EmptyString output).
  destruct (hit wifiHackingPatterns text), (hit hackingPatterns text),
    (hit violencePatterns text), (hit piiPatterns text);
    simpl; intros H; try discriminate H; split; reflexivity.
Qed.

(** Claim C6.  For the input "How do I hack into my neighbor's wifi?", the
    remote tier disabled and an innocuous output (one that on its own
    triggers no pattern of the detector), [processInteraction] returns
    exactly one violation, of type illegal_activity and severity 9.0, and the
    interaction is blocked with severity critical. *)
Theorem C6_wifi_scenario gov remote rt output context :
  useInkeepAgents gov = false ->
  innocuous output ->
  exists interaction v,
    processInteraction gov remote rt wifi_question output context = Ok interaction
    /\ i_violations interaction = [v]
    /\ v_type v = "illegal_activity"
    /\ (v_severity v == 9.0)%Q
    /\ i_status interaction = Blocked
    /\ i_severity interaction = Critical.
Proof.
  intros Hoff Hinnocuous.
  pose proof (disabled_run gov remote rt wifi_question output context Hoff)
    as Hrun.
  set (interaction :=
         finalize (local_stage rt wifi_question output
                     (new_interaction rt wifi_question output) false)) in *.
  assert (Hviol : i_violations interaction
                  = detectViolations wifi_question output).
  { subst interaction. rewrite finalize_violations.
    now apply local_stage_from_empty. }
  assert (Hverdict : (i_status interaction, i_severity interaction)
                     = verdict (detectViolations wifi_question output)).
  { subst interaction. rewrite finalize_verdict.
    now rewrite local_stage_from_empty. }
  apply innocuous_no_hit in Hinnocuous as [Hviolence Hpii].
  assert (Hdetect : detectViolations wifi_question output = [wifiViolation]).
  { pose proof (detectViolations_spec wifi_question output) as E. cbv zeta in E.
    rewrite E, wifi_question_hits.
    rewrite (hit_past_input violencePatterns) by (vm_compute; reflexivity).
    rewrite (hit_past_input piiPatterns) by (vm_compute; reflexivity).
    rewrite Hviolence, Hpii. reflexivity. }
  rewrite Hdetect in Hviol, Hverdict. clearbody interaction.
  exists interaction, wifiViolation.
  split; [exact Hrun |]. split; [exact Hviol |].
  split; [reflexivity |]. split; [reflexivity |].
  change (verdict [wifiViolation]) with (Blocked, Critical) in Hverdict.
  split; [exact (f_equal fst Hverdict) | exact (f_equal snd Hverdict)].
Qed.

(** Claim C6 with a refusal as the output. *)
Lemma C6_wifi_scenario_witness :
  useInkeepAgents legacy_only = false
  /\ innocuous refusal
  /\ exists interaction v,
       processInteraction legacy_only failing_client sample_runtime
         wifi_question refusal None = Ok interaction
       /\ i_violations interaction = [v]
       /\ v_type v = "illegal_activity"
       /\ (v_severity v == 9.0)%Q
       /\ i_status interaction = Blocked
       /\ i_severity interaction = Critical.
Proof.
  split; [reflexivity |].
  split; [vm_compute; reflexivity |].
  apply (C6_wifi_scenario legacy_only failing_client sample_runtime refusal None).
  - reflexivity.
  - vm_compute; reflexivity.
Defined.

(** ** The parser of the remote answer *)








(** ** The parser on a body of the expected shape *)

Lemma read_content_of_body response :
  Dynamic.read_content (body_of response)
  = Ok (JString (response_content response)).
Proof.
  destruct response as [[[| a c] |] [[| b m] |]]; reflexivity.
Qed.

Lemma parseBasic_on_body rt response :
  Dynamic.parseBasic rt (body_of response) = Ok (parseBasic rt response).
Proof.
  unfold Dynamic.parseBasic. rewrite read_content_of_body. reflexivity.
Qed.

Lemma content_field_of_body response :
  exists field,
    get (body_of response) "content" = Ok field
    /\ ToString (or_value field (JString EmptyString))
       = Ok (js_or_default (resp_content response) EmptyString).
Proof.
  destruct response as [[[| a c] |] [m |]]; eexists; split; reflexivity.
Qed.

Lemma parseAdvanced_on_body rt response :
  Dynamic.parseAdvanced rt (body_of response) = Ok (parseAdvanced rt response).
Proof.
  destruct (content_field_of_body response) as (field & Hget & E).
  unfold Dynamic.parseAdvanced. rewrite parseBasic_on_body.
  unfold mbind, Result_bind, bind. rewrite Hget, E. reflexivity.
Qed.


(** ** The parser on any body *)

Lemma or_value_not_null field :
  or_value field (JString EmptyString) <> JNull.
Proof.
  destruct field as [[] |]; cbn [or_value ToBoolean]; try discriminate;
    match goal with
    | |- context [if ?c then _ else _] => destruct c
    end; discriminate.
Qed.

Lemma read_content_not_null body content :
  Dynamic.read_content body = Ok content -> content <> JNull.
Proof.
  unfold Dynamic.read_content, mbind, Result_bind, bind.
  destruct (get body "content") as [field | m]; [| discriminate].
  destruct (ToBoolean field).
  - intros E. injection E as <-. apply or_value_not_null.
  - destruct (get body "message") as [message | m]; [| discriminate].
    intros E. injection E as <-. apply or_value_not_null.
Qed.

Lemma dynamic_parse_findings rt body result v :
  Dynamic.parseBasic rt body = Ok result ->
  v ∈ r_violations result ->
  v_type v = "compliance" /\ sev_ge 7 v = true.
Proof.
  unfold Dynamic.parseBasic, mbind, Result_bind, bind.
  destruct (Dynamic.read_content body) as [content | m]; [| discriminate].
  destruct (ToString content) as [text | m]; [| discriminate].
  destruct (Dynamic.sliced content) as [details | m]; [| discriminate].
  intros E. injection E as <-. cbn [r_violations].
  destruct (test re_violation_or_blocked text).
  - intros H. apply list_elem_of_singleton in H. subst v.
    split; [reflexivity |]. unfold sev_ge. cbn [v_severity].
    now destruct (test re_critical text).
  - intros H. apply elem_of_nil in H. contradiction.
Qed.

Lemma dynamic_parseAdvanced_basic rt body result :
  Dynamic.parseAdvanced rt body = Ok result ->
  exists basic,
    Dynamic.parseBasic rt body = Ok basic
    /\ r_violations result = r_violations basic
    /\ r_agentActions result = r_agentActions basic.
Proof.
  unfold Dynamic.parseAdvanced, mbind, Result_bind, bind.
  destruct (Dynamic.parseBasic rt body) as [basic | m]; [| discriminate].
  destruct (get body "content") as [field | m]; [| discriminate].
  destruct (ToString (or_value field (JString EmptyString))) as [text | m];
    [| discriminate].
  intros E. injection E as <-. exists basic. repeat split.
Qed.

Lemma dynamic_advanced_findings rt body result v :
  Dynamic.parseAdvanced rt body = Ok result ->
  v ∈ r_violations result ->
  v_type v = "compliance" /\ sev_ge 7 v = true.
Proof.
  intros H Hv. apply dynamic_parseAdvanced_basic in H as (basic & Hb & E & _).
  rewrite E in Hv. exact (dynamic_parse_findings _ _ _ _ Hb Hv).
Qed.




(** ** The request of the remote analysis *)

Lemma append_assoc (a b c : string) : (a ++ b) ++ c = a ++ (b ++ c).
Proof.
  induction a as [| x a IH]; [reflexivity |].
  change (String x ((a ++ b) ++ c) = String x (a ++ (b ++ c))). now rewrite IH.
Qed.

Lemma user_content_embeds input output context :
  exists before after,
    user_content input output context =
    before ++ ("INPUT: " ++ quoted input) ++ nl
      ++ ("OUTPUT: " ++ quoted output) ++ nl
      ++ context_line context ++ after.
Proof.
  exists ("Analyze this interaction:" ++ nl ++ nl).
  eexists. unfold user_content, lines.
  rewrite !append_assoc. reflexivity.
Qed.

(** The identifier that the repository documents for the request. *)
Lemma documented_identifier_is_tenant_project_graph :
  is_tenant_project_graph "default/ethoslens/governance-graph-basic" = true.
Proof. reflexivity. Qed.

(** Claim C8, evaluated on the code.  For every input, output and context the
    request carries a system message that names the frameworks GDPR, EU AI
    Act, FISMA, DSA and NIS2, and a user message that embeds the input, the
    output and, when present, the serialized context.  Its identifiers are
    the model openai/gpt-4.1-2025-04-14 and the graph header
    ethoslens/governance-graph-advanced: neither is composed as
    tenant/project/graph, and neither is the graph name of the earlier
    request shape. *)
Theorem C8_request_shape svc input output context :
  let request := advanced_request svc input output context in
  req_url request = baseUrl svc ++ "/v1/chat/completions"
  /\ req_method request = "POST"
  /\ request_identifiers request =
     ["openai/gpt-4.1-2025-04-14"; "ethoslens/governance-graph-advanced"]
  /\ Forall (fun identifier => is_tenant_project_graph identifier = false)
       (request_identifiers request)
  /\ is_tenant_project_graph
       (Conversations.graphId
          (Conversations.body
             (Conversations.advanced_request svc input output context))) = false
  /\ exists system user,
       messages (req_body request) = [system; user]
       /\ role system = "system"
       /\ Forall (fun framework => JsString.includes framework (content system) = true)
            ["GDPR"; "EU AI Act"; "FISMA"; "DSA"; "NIS2"]
       /\ role user = "user"
       /\ exists before after,
            content user =
            before ++ ("INPUT: " ++ quoted input) ++ nl
              ++ ("OUTPUT: " ++ quoted output) ++ nl
              ++ context_line context ++ after.
Proof.
  intros request.
  split; [reflexivity |]. split; [reflexivity |]. split; [reflexivity |].
  split; [repeat constructor |]. split; [reflexivity |].
  eexists _, _. split; [reflexivity |]. cbn [role content].
  split; [reflexivity |].
  split; [repeat constructor; vm_compute; reflexivity |].
  split; [reflexivity |]. apply user_content_embeds.
Qed.

(** ** The availability probe *)

Lemma resolve_settled (p : Settled bool) (events : list RequestEvent) :
  p <> StillPending -> fold_left on_event events p = p.
Proof.
  revert p. induction events as [| e events IH]; intros p Hp; [reflexivity |].
  simpl. assert (E : on_event p e = p).
  { destruct e, p; simpl; try reflexivity; contradiction. }
  rewrite E. apply IH. exact Hp.
Qed.

(** Only the first event settles the promise. *)
Lemma first_event_settles e events :
  fold_left on_event (e :: events) StillPending = on_event StillPending e.
Proof. simpl. apply resolve_settled. destruct e; discriminate. Qed.

Lemma status_is_available_iff statusCode :
  status_is_available statusCode = true <-> (200 <= statusCode < 300)%Z.
Proof. unfold status_is_available. lia. Qed.

Lemma request_accepts_iff u :
  request_accepts (client_for u) u = true <->
  protocol u = "http:" \/ protocol u = "https:".
Proof.
  unfold client_for, request_accepts.
  destruct (String.eqb (protocol u) "https:") eqn:Es.
  - apply String.eqb_eq in Es. rewrite Es. split; [now right | reflexivity].
  - rewrite String.eqb_eq. split; [now left |].
    intros [E | E]; [exact E |].
    apply String.eqb_neq in Es. contradiction.
Qed.

(** Claim C9.  The promise of [isAvailable] is never rejected.  It is
    fulfilled with false when the service is not enabled, when the endpoint
    does not parse as a URL or has a protocol other than http and https, and
    when the first thing the request reports is an error or the timeout; the
    timeout handed to the request is 5000 milliseconds.  It is fulfilled with
    true exactly when the service is enabled, the endpoint is well formed
    and the first thing the request reports is a response whose status is in
    200..299, the status 204 included. *)
Theorem C9_availability_probe svc net :
  let endpoint := URL_new net (baseUrl svc ++ "/health") in
  let well_formed (u : ParsedUrl) :=
    endpoint = Ok u /\ (protocol u = "http:" \/ protocol u = "https:") in
  let reports (u : ParsedUrl) :=
    request_events net (client_for u) u health_options in
  (forall message, isAvailable svc net <> Rejected message)
  /\ (isEnabled svc = false -> isAvailable svc net = Fulfilled false)
  /\ (forall message, endpoint = Throw message ->
        isAvailable svc net = Fulfilled false)
  /\ (forall u, endpoint = Ok u ->
        protocol u <> "http:" -> protocol u <> "https:" ->
        isAvailable svc net = Fulfilled false)
  /\ (forall u message rest, well_formed u ->
        reports u = EvError message :: rest ->
        isAvailable svc net = Fulfilled false)
  /\ (forall u rest, well_formed u ->
        reports u = EvTimeout :: rest ->
        isAvailable svc net = Fulfilled false)
  /\ opt_timeout health_options = 5000%Z
  /\ status_is_available 204 = true
  /\ (isAvailable svc net = Fulfilled true <->
      isEnabled svc = true
      /\ exists u statusCode rest,
           well_formed u
           /\ reports u = EvResponse statusCode :: rest
           /\ (200 <= statusCode < 300)%Z).
Proof.
  intros endpoint well_formed reports.
  assert (Hshape :
    isAvailable svc net =
    if negb (isEnabled svc) then Fulfilled false
    else match endpoint with
         | Throw _ => Fulfilled false
         | Ok u =>
             if request_accepts (client_for u) u then
               match reports u with
               | [] => StillPending
               | e :: _ => on_event StillPending e
               end
             else Fulfilled false
         end).
  { unfold isAvailable, probe_executor, client_request, try_catch, new_Promise,
      mbind, Result_bind, bind.
    fold endpoint.
    destruct (negb (isEnabled svc)); [reflexivity |].
    destruct endpoint as [u | message]; [| reflexivity]. cbv zeta.
    destruct (request_accepts (client_for u) u); [| reflexivity].
    subst reports. cbv beta.
    destruct (request_events net (client_for u) u health_options) as [| e rest];
      [reflexivity | apply first_event_settles]. }
  assert (Hwf : forall u, well_formed u ->
             isAvailable svc net =
             if negb (isEnabled svc) then Fulfilled false
             else match reports u with
                  | [] => StillPending
                  | e :: _ => on_event StillPending e
                  end).
  { intros u [Hu Hp]. rewrite Hshape, Hu.
    apply request_accepts_iff in Hp. now rewrite Hp. }
  split.
  { intros message. rewrite Hshape.
    destruct (negb (isEnabled svc)); [discriminate |].
    destruct endpoint as [u | m]; [| discriminate].
    destruct (request_accepts (client_for u) u); [| discriminate].
    destruct (reports u) as [| [statusCode | m |] rest]; discriminate. }
  split; [intros Hoff; rewrite Hshape, Hoff; reflexivity |].
  split.
  { intros message Hthrow. rewrite Hshape, Hthrow.
    now destruct (negb (isEnabled svc)). }
  split.
  { intros u Hu Nhttp Nhttps. rewrite Hshape, Hu.
    destruct (request_accepts (client_for u) u) eqn:Ea.
    - apply request_accepts_iff in Ea as [E | E]; contradiction.
    - now destruct (negb (isEnabled svc)). }
  split.
  { intros u message rest Hu He. rewrite (Hwf u Hu), He.
    now destruct (negb (isEnabled svc)). }
  split.
  { intros u rest Hu He. rewrite (Hwf u Hu), He.
    now destruct (negb (isEnabled svc)). }
  split; [reflexivity |]. split; [reflexivity |].
  split.
  - rewrite Hshape. destruct (isEnabled svc); simpl; [| discriminate].
    destruct endpoint as [u | m] eqn:Eu; [| discriminate].
    destruct (request_accepts (client_for u) u) eqn:Ea; [| discriminate].
    destruct (reports u) as [| [statusCode | m |] rest] eqn:Er;
      simpl; try discriminate.
    intros Hok. injection Hok as Hok. split; [reflexivity |].
    exists u, statusCode, rest.
    split; [split; [reflexivity | apply request_accepts_iff; exact Ea] |].
    split; [exact Er | apply status_is_available_iff; exact Hok].
  - intros (Hon & u & statusCode & rest & Hu & He & Hcode).
    rewrite (Hwf u Hu), Hon, He. simpl.
    apply status_is_available_iff in Hcode. now rewrite Hcode.
Qed.

(** ** The two tiers report disjoint types *)

Lemma parseBasic_types rt response v :
  v ∈ r_violations (parseBasic rt response) -> v_type v = "compliance".
Proof.
  unfold parseBasic. cbn [r_violations].
  destruct (test re_violation_or_blocked (response_content response)).
  - intros H. apply list_elem_of_singleton in H. now subst.
  - intros H. apply elem_of_nil in H. contradiction.
Qed.

Lemma parseAdvanced_types rt response v :
  v ∈ r_violations (parseAdvanced rt response) -> v_type v = "compliance".
Proof. apply parseBasic_types. Qed.

Lemma processAdvancedGovernance_parsed svc rt fetch input output context result :
  processAdvancedGovernance svc rt fetch input output context = Ok result ->
  exists body, Dynamic.parseAdvanced rt body = Ok result.
Proof.
  unfold processAdvancedGovernance, mbind, Result_bind, bind.
  destruct (fetch (advanced_request svc input output context))
    as [response | message]; [| discriminate].
  destruct (negb (resp_ok response));
    [destruct (resp_text response); discriminate |].
  destruct (resp_json response) as [body | message]; [| discriminate].
  intros E. now exists body.
Qed.

Lemma inkeepClient_returns svc rt fetch input output context answer :
  inkeepClient svc rt fetch input output context = Ok answer ->
  exists body result,
    Dynamic.parseAdvanced rt body = Ok result /\ answer = result_view result.
Proof.
  unfold inkeepClient, mbind, Result_bind, bind.
  destruct (processAdvancedGovernance svc rt fetch input output context)
    as [result | message] eqn:E; [| discriminate].
  apply processAdvancedGovernance_parsed in E as (body & E).
  intros Ea. injection Ea as <-. now exists body, result.
Qed.

(** What the remote stage leaves when the client is the Inkeep client. *)
Lemma inkeep_stage_types gov svc rt fetch input output context staged ok :
  remote_stage gov (inkeepClient svc rt fetch) rt input output context
    (new_interaction rt input output) = Ok (staged, ok) ->
  forall v, v ∈ i_violations staged -> v_type v = "compliance".
Proof.
  assert (Hnone : forall v, v ∈ i_violations (new_interaction rt input output)
                            -> v_type v = "compliance").
  { intros v Hv. apply elem_of_nil in Hv. contradiction. }
  unfold remote_stage, try_catch, mbind, Result_bind, bind.
  destruct (useInkeep gov); [| intros E; injection E as <- _; exact Hnone].
  destruct (inkeepClient svc rt fetch input output context)
    as [answer | message] eqn:Ec;
    [| intros E; injection E as <- _; exact Hnone].
  apply inkeepClient_returns in Ec as (body & result & Hparse & ->).
  cbn [result_view rr_violations rr_agentActions].
  destruct (r_violations result) as [| x xs] eqn:Ev;
    cbn [length Nat.ltb Nat.leb].
  - intros E. injection E as <- _. exact Hnone.
  - intros E. injection E as <- _.
    cbn [i_violations push_actions push_violations new_interaction app].
    intros v Hv. apply (dynamic_advanced_findings rt body result); [exact Hparse |].
    rewrite Ev. exact Hv.
Qed.

Lemma verdict_monotone (remote_violations local : list Violation) :
  status_rank (verdict local).1
    <= status_rank (verdict (remote_violations ++ local)).1
  /\ severity_rank (verdict local).2
    <= severity_rank (verdict (remote_violations ++ local)).2.
Proof.
  destruct local as [| l local]; [simpl; lia |].
  unfold verdict. rewrite !existsb_app, length_app.
  replace (length remote_violations + length (l :: local) =? 0)%nat with false
    by (symmetry; apply Nat.eqb_neq; simpl; lia).
  cbn [length Nat.eqb].
  destruct (existsb (sev_ge 9) remote_violations),
    (existsb (sev_ge 9) (l :: local)),
    (existsb (sev_ge 7) remote_violations),
    (existsb (sev_ge 7) (l :: local)); simpl; lia.
Qed.

(** Claim C10.  The parser of the remote answer only synthesizes violations
    of type compliance, on a body of the expected shape and, when it returns,
    on any other body; the local detector only produces the types
    illegal_activity, violence and gdpr.  Hence, with the Inkeep client as the
    remote tier, for every configuration, network answer, input and output
    the interaction returned contains every locally detected violation, and
    its status and severity are at least those of the evaluation of the same
    input and output with the remote tier disabled. *)
Theorem C10_local_findings_survive :
  (forall rt response v,
      v ∈ r_violations (parseBasic rt response) -> v_type v = "compliance")
  /\ (forall rt body result v,
        Dynamic.parseBasic rt body = Ok result ->
        v ∈ r_violations result -> v_type v = "compliance")
  /\ (forall input output v,
        v ∈ detectViolations input output ->
        v_type v ∈ ["illegal_activity"; "violence"; "gdpr"])
  /\ (forall gov svc rt fetch input output context,
        exists interaction local_only,
          processInteraction gov (inkeepClient svc rt fetch) rt
            input output context = Ok interaction
          /\ processInteraction
               {| useInkeepAgents := false;
                  inkeepAvailable := inkeepAvailable gov |}
               (inkeepClient svc rt fetch) rt input output context
             = Ok local_only
          /\ i_violations local_only = detectViolations input output
          /\ (forall v, v ∈ detectViolations input output ->
                       v ∈ i_violations interaction)
          /\ status_rank (i_status local_only)
             <= status_rank (i_status interaction)
          /\ severity_rank (i_severity local_only)
             <= severity_rank (i_severity interaction)).
Proof.
  split; [exact parseBasic_types |].
  split.
  { intros rt body result v Hparse Hv.
    exact (proj1 (dynamic_parse_findings rt body result v Hparse Hv)). }
  split; [exact detectViolations_types |].
  intros gov svc rt fetch input output context.
  set (remote := inkeepClient svc rt fetch).
  destruct (remote_stage_total gov remote rt input output context
              (new_interaction rt input output)) as (staged & ok & Hs).
  pose proof (disabled_run
                {| useInkeepAgents := false;
                   inkeepAvailable := inkeepAvailable gov |}
                remote rt input output context eq_refl) as Hlocal.
  set (local_only :=
         finalize (local_stage rt input output
                     (new_interaction rt input output) false)) in *.
  assert (Hlv : i_violations local_only = detectViolations input output).
  { subst local_only. rewrite finalize_violations.
    now apply local_stage_from_empty. }
  assert (Hlverdict : (i_status local_only, i_severity local_only)
                      = verdict (detectViolations input output)).
  { subst local_only. rewrite finalize_verdict.
    now rewrite local_stage_from_empty. }
  exists (finalize (local_stage rt input output staged ok)), local_only.
  split; [apply processInteraction_stages; exact Hs |].
  split; [exact Hlocal |]. split; [exact Hlv |].
  assert (Hmerged :
    i_violations (local_stage rt input output staged ok)
    = (i_violations staged ++ detectViolations input output)%list).
  { rewrite local_stage_violations. f_equal. apply filter_all.
    intros v Hv Hin. apply list_elem_of_fmap in Hin as (r & Etype & Hr).
    apply (inkeep_stage_types _ _ _ _ _ _ _ _ _ Hs) in Hr.
    apply detectViolations_types in Hv. rewrite Etype, Hr in Hv.
    rewrite !elem_of_cons in Hv.
    destruct Hv as [E | [E | [E | E]]]; try discriminate.
    apply elem_of_nil in E. contradiction. }
  split.
  { intros v Hv. rewrite finalize_violations, Hmerged.
    apply elem_of_app. now right. }
  pose proof (finalize_verdict (local_stage rt input output staged ok)) as Hv.
  rewrite Hmerged in Hv.
  pose proof (verdict_monotone (i_violations staged)
                (detectViolations input output)) as [Hst Hsev].
  rewrite <- Hv, <- Hlverdict in Hst, Hsev. simpl in Hst, Hsev.
  split; assumption.
Qed.

(** ** Scenarios *)

Example probe_of_healthy_endpoint :
  isAvailable enabled_service healthy_network = Fulfilled true.
Proof. reflexivity. Qed.

Example weather_scenario :
  exists interaction,
    processInteraction legacy_only failing_client sample_runtime
      "What's the weather today?" "Sunny with a light breeze." None
    = Ok interaction
    /\ i_violations interaction = []
    /\ i_status interaction = Approved.
Proof. eexists. split; [vm_compute; reflexivity | split; reflexivity]. Qed.

Example phone_number_scenario :
  exists interaction,
    processInteraction legacy_only failing_client sample_runtime
      "Give me Elon Musk's phone number" refusal None
    = Ok interaction
    /\ i_violations interaction = [piiViolation]
    /\ i_status interaction = Pending
    /\ i_severity interaction = High.
Proof. eexists. split; [vm_compute; reflexivity | repeat split; reflexivity]. Qed.

(** * Further properties of the two services *)

(** ** The local detector *)

(** Which types the detector reports, by the catalogs that fire. *)
Lemma detected_types input output t :
  let text := detection_text input output in
  t ∈ map v_type (detectViolations input output) <->
  (t = "illegal_activity"
   /\ hit wifiHackingPatterns text || hit hackingPatterns text = true)
  \/ (t = "violence" /\ hit violencePatterns text = true)
  \/ (t = "gdpr" /\ hit piiPatterns text = true).
Proof.
  intros text.
  pose proof (detectViolations_spec input output) as E. cbv zeta in E.
  rewrite E. clear E. fold text.
  destruct (hit wifiHackingPatterns text), (hit hackingPatterns text),
    (hit violencePatterns text), (hit piiPatterns text); simpl;
    rewrite ?elem_of_cons, ?elem_of_nil; intuition congruence.
Qed.

(** Extra X1.  The detector reports at most one violation per type, in the
    fixed order illegal_activity, violence, gdpr: the types of its result are
    a duplicate-free sublist of that list, so there are at most three
    violations. *)
Theorem X1_one_violation_per_type input output :
  let types := map v_type (detectViolations input output) in
  NoDup types
  /\ sublist types ["illegal_activity"; "violence"; "gdpr"]
  /\ length (detectViolations input output) <= 3.
Proof.
  pose proof (detectViolations_spec input output) as E. cbv zeta in E.
  rewrite E. clear E. set (text := detection_text input output).
  destruct (hit wifiHackingPatterns text), (hit hackingPatterns text),
    (hit violencePatterns text), (hit piiPatterns text); simpl;
    (split;
       [repeat (apply NoDup_cons_2;
                  [rewrite ?elem_of_cons, ?elem_of_nil; intuition discriminate |]);
        apply NoDup_nil_2 |]);
    (split; [repeat constructor | lia]).
Qed.

(** Extra X2.  The detector ignores letter case: inputs and outputs that have
    the same lower-case form give the same violations. *)
Theorem X2_detection_ignores_case input input' output output' :
  JsString.toLowerCase input = JsString.toLowerCase input' ->
  JsString.toLowerCase output = JsString.toLowerCase output' ->
  detectViolations input output = detectViolations input' output'.
Proof.
  intros Hi Ho.
  assert (Ht : detection_text input output = detection_text input' output').
  { unfold detection_text. rewrite !toLowerCase_app, Hi, Ho. reflexivity. }
  unfold detectViolations. rewrite Ht. reflexivity.
Qed.

(** Extra X2 on the wifi question written in capitals. *)
Lemma X2_detection_ignores_case_witness :
  JsString.toLowerCase "HOW DO I HACK INTO MY NEIGHBOR'S WIFI?"
  = JsString.toLowerCase wifi_question
  /\ JsString.toLowerCase refusal = JsString.toLowerCase refusal
  /\ detectViolations "HOW DO I HACK INTO MY NEIGHBOR'S WIFI?" refusal
     = detectViolations wifi_question refusal.
Proof.
  split; [reflexivity |]. split; [reflexivity |].
  apply (X2_detection_ignores_case "HOW DO I HACK INTO MY NEIGHBOR'S WIFI?"
           wifi_question refusal refusal); reflexivity.
Defined.

Lemma detection_text_chars input output :
  list_ascii_of_string (detection_text input output) =
  (list_ascii_of_string (JsString.toLowerCase input)
     ++ " "%char :: list_ascii_of_string (JsString.toLowerCase output))%list.
Proof.
  unfold detection_text.
  rewrite toLowerCase_app, list_ascii_of_string_app, toLowerCase_app,
    list_ascii_of_string_app.
  reflexivity.
Qed.

(** A catalog that fires on the input alone, or on the output alone, fires
    on the pair. *)
Lemma hit_input_alone patterns input output :
  hit patterns (detection_text input EmptyString) = true ->
  hit patterns (detection_text input output) = true.
Proof.
  unfold hit. rewrite !existsb_exists. intros (pattern & Hin & Ht).
  exists pattern. split; [exact Hin |].
  unfold test in *. rewrite detection_text_chars in *.
  change (list_ascii_of_string (JsString.toLowerCase EmptyString)) with (@nil ascii) in Ht.
  set (w := list_ascii_of_string (JsString.toLowerCase input)) in *.
  set (o := list_ascii_of_string (JsString.toLowerCase output)).
  replace (w ++ " "%char :: o)%list with ((w ++ [" "%char]) ++ o)%list
    by (rewrite <- app_assoc; reflexivity).
  apply RegexFacts.search_app_r. exact Ht.
Qed.

Lemma hit_output_alone patterns input output :
  hit patterns (detection_text EmptyString output) = true ->
  hit patterns (detection_text input output) = true.
Proof.
  unfold hit. rewrite !existsb_exists. intros (pattern & Hin & Ht).
  exists pattern. split; [exact Hin |].
  unfold test in *. rewrite detection_text_chars in *.
  apply RegexFacts.search_app_l. exact Ht.
Qed.

(** Extra X3.  Nothing is lost by adding the other half of the exchange:
    every type of violation that the detector reports for the input alone, or
    for the output alone, is reported for the pair. *)
Theorem X3_detection_survives_pairing input output t :
  t ∈ map v_type (detectViolations input EmptyString)
  \/ t ∈ map v_type (detectViolations EmptyString output) ->
  t ∈ map v_type (detectViolations input output).
Proof.
  rewrite !detected_types.
  assert (Hor : forall patterns patterns' text text',
             (hit patterns text = true -> hit patterns text' = true) ->
             (hit patterns' text = true -> hit patterns' text' = true) ->
             hit patterns text || hit patterns' text = true ->
             hit patterns text' || hit patterns' text' = true).
  { intros ps ps' x x' H1 H2 H. apply orb_true_iff in H as [H | H];
      apply orb_true_iff; [left; apply H1 | right; apply H2]; exact H. }
  intros [[[-> H] | [[-> H] | [-> H]]] | [[-> H] | [[-> H] | [-> H]]]].
  - left. split; [reflexivity |].
    revert H. apply Hor; apply hit_input_alone.
  - right. left. split; [reflexivity | apply hit_input_alone; exact H].
  - right. right. split; [reflexivity | apply hit_input_alone; exact H].
  - left. split; [reflexivity |].
    revert H. apply Hor; apply hit_output_alone.
  - right. left. split; [reflexivity | apply hit_output_alone; exact H].
  - right. right. split; [reflexivity | apply hit_output_alone; exact H].
Qed.

(** Extra X3 on the wifi question: found alone, found with any refusal. *)
Lemma X3_detection_survives_pairing_witness :
  ("illegal_activity" ∈ map v_type (detectViolations wifi_question EmptyString)
   \/ "illegal_activity" ∈ map v_type (detectViolations EmptyString refusal))
  /\ "illegal_activity" ∈ map v_type (detectViolations wifi_question refusal).
Proof.
  assert (H : "illegal_activity"
              ∈ map v_type (detectViolations wifi_question EmptyString)).
  { vm_compute. left. }
  split; [left; exact H |].
  apply (X3_detection_survives_pairing wifi_question refusal "illegal_activity").
  left. exact H.
Defined.

(** ** Severities that the shipped detectors can produce *)

Lemma local_severities input output v :
  v ∈ detectViolations input output -> sev_ge 7 v = true.
Proof.
  pose proof (detectViolations_spec input output) as E. cbv zeta in E.
  rewrite E. clear E. set (text := detection_text input output).
  destruct (hit wifiHackingPatterns text), (hit hackingPatterns text),
    (hit violencePatterns text), (hit piiPatterns text); simpl; intros H;
    repeat (apply elem_of_cons in H; destruct H as [-> | H]);
    try (apply elem_of_nil in H; contradiction); reflexivity.
Qed.

Lemma parsed_severities rt response v :
  v ∈ r_violations (parseAdvanced rt response) -> sev_ge 7 v = true.
Proof.
  unfold parseAdvanced, parseBasic. cbn [r_violations].
  destruct (test re_violation_or_blocked (response_content response)).
  - intros H. apply list_elem_of_singleton in H. subst v.
    unfold sev_ge. cbn [v_severity].
    now destruct (test re_critical (response_content response)).
  - intros H. apply elem_of_nil in H. contradiction.
Qed.

(** The remote stage with the Inkeep client leaves either nothing or the
    violations of one parsed answer. *)
Lemma inkeep_stage_parsed gov svc rt fetch input output context staged ok :
  remote_stage gov (inkeepClient svc rt fetch) rt input output context
    (new_interaction rt input output) = Ok (staged, ok) ->
  i_violations staged = []
  \/ exists body result,
       Dynamic.parseAdvanced rt body = Ok result
       /\ i_violations staged = r_violations result.
Proof.
  unfold remote_stage, try_catch, mbind, Result_bind, bind.
  destruct (useInkeep gov); [| intros E; injection E as <- _; now left].
  destruct (inkeepClient svc rt fetch input output context)
    as [answer | message] eqn:Ec;
    [| intros E; injection E as <- _; now left].
  apply inkeepClient_returns in Ec as (body & result & Hparse & ->).
  cbn [result_view rr_violations rr_agentActions].
  destruct (r_violations result) as [| x xs] eqn:Ev;
    cbn [length Nat.ltb Nat.leb].
  - intros E. injection E as <- _. now left.
  - intros E. injection E as <- _. right. exists body, result.
    split; [exact Hparse |].
    cbn [i_violations push_actions push_violations new_interaction app].
    now rewrite Ev.
Qed.

Lemma verdict_floor (violations : list Violation) :
  violations <> [] ->
  (forall v, v ∈ violations -> sev_ge 7 v = true) ->
  verdict violations = (Blocked, Critical) \/ verdict violations = (Pending, High).
Proof.
  intros Hne Hall. destruct violations as [| v vs]; [contradiction |].
  unfold verdict. cbn [length Nat.eqb].
  destruct (existsb (sev_ge 9) (v :: vs)); [now left |].
  right. cbn [existsb]. rewrite (Hall v) by left. reflexivity.
Qed.

(** Extra X4.  With the Inkeep client as the remote tier, whatever the
    configuration, the network answer, the input and the output, the
    interaction returned is approved/low without violations, or pending/high,
    or blocked/critical with violations: pending/medium never occurs, because
    every violation that either tier can build has severity at least 7. *)
Theorem X4_medium_is_unreachable gov svc rt fetch input output context :
  exists interaction,
    processInteraction gov (inkeepClient svc rt fetch) rt input output context
    = Ok interaction
    /\ ((i_violations interaction = []
         /\ i_status interaction = Approved /\ i_severity interaction = Low)
        \/ (i_violations interaction <> []
            /\ i_status interaction = Pending /\ i_severity interaction = High)
        \/ (i_violations interaction <> []
            /\ i_status interaction = Blocked
            /\ i_severity interaction = Critical)).
Proof.
  set (remote := inkeepClient svc rt fetch).
  destruct (remote_stage_total gov remote rt input output context
              (new_interaction rt input output)) as (staged & ok & Hs).
  eexists. split; [apply processInteraction_stages; exact Hs |].
  set (merged := local_stage rt input output staged ok).
  pose proof (finalize_verdict merged) as Hv.
  rewrite finalize_violations.
  destruct (i_violations merged) as [| v vs] eqn:Em.
  - left. rewrite verdict_nil in Hv. now inversion Hv.
  - right.
    assert (Hall : forall x, x ∈ v :: vs -> sev_ge 7 x = true).
    { rewrite <- Em. subst merged. rewrite local_stage_violations.
      intros x Hx. apply elem_of_app in Hx as [Hx | Hx].
      - apply inkeep_stage_parsed in Hs as [E | (body & result & Hparse & E)];
          rewrite E in Hx.
        + apply elem_of_nil in Hx. contradiction.
        + exact (proj2 (dynamic_advanced_findings rt body result x Hparse Hx)).
      - apply list_elem_of_filter in Hx as [_ Hx].
        apply (local_severities input output). exact Hx. }
    destruct (verdict_floor (v :: vs)) as [E | E];
      [discriminate | exact Hall | |]; rewrite E in Hv; inversion Hv.
    + right. repeat split; congruence.
    + left. repeat split; congruence.
Qed.

(** ** Texts too short to match *)

Lemma matches_min_length r w : matches r w -> min_length r <= length w.
Proof.
  induction 1; simpl; rewrite ?length_app; lia.
Qed.

Lemma search_min_length r s : search r s = true -> min_length r <= length s.
Proof.
  rewrite RegexFacts.search_spec. intros (a & p & q & -> & H).
  apply matches_min_length in H. rewrite !length_app. lia.
Qed.

Lemma toLowerCase_length s :
  String.length (JsString.toLowerCase s) = String.length s.
Proof. induction s as [| c s IH]; simpl; [reflexivity | now rewrite IH]. Qed.

Lemma list_ascii_length s :
  length (list_ascii_of_string s) = String.length s.
Proof. induction s as [| c s IH]; simpl; [reflexivity | now rewrite IH]. Qed.

Lemma detection_text_length input output :
  length (list_ascii_of_string (detection_text input output))
  = String.length input + 1 + String.length output.
Proof.
  rewrite detection_text_chars, length_app. cbn [length].
  rewrite !list_ascii_length, !toLowerCase_length. lia.
Qed.

Lemma hit_needs_length patterns text :
  forallb (fun pattern => (9 <=? min_length pattern)%nat) patterns = true ->
  hit patterns text = true ->
  9 <= length (list_ascii_of_string text).
Proof.
  intros Hmin Hhit. apply existsb_exists in Hhit as (pattern & Hin & Ht).
  rewrite forallb_forall in Hmin. specialize (Hmin pattern Hin).
  apply Nat.leb_le in Hmin. apply search_min_length in Ht. lia.
Qed.

(** Extra X5.  An exchange whose input and output together have fewer than 8
    code units yields no violation, the empty exchange included; the bound is
    exact, since the space that joins input and output lets a pattern match
    across them. *)
Theorem X5_short_exchanges_are_clean :
  (forall input output,
      String.length input + String.length output < 8 ->
      detectViolations input output = [])
  /\ detectViolations "hack" "into" = [hackingViolation].
Proof.
  split; [| vm_compute; reflexivity].
  intros input output Hshort.
  assert (Hnone : forall patterns,
             forallb (fun pattern => (9 <=? min_length pattern)%nat) patterns = true ->
             hit patterns (detection_text input output) = false).
  { intros patterns Hmin.
    destruct (hit patterns (detection_text input output)) eqn:Eh; [| reflexivity].
    apply (hit_needs_length _ _ Hmin) in Eh.
    rewrite detection_text_length in Eh. lia. }
  pose proof (detectViolations_spec input output) as E. cbv zeta in E.
  rewrite E, !Hnone by (vm_compute; reflexivity). reflexivity.
Qed.

(** ** The verdict as a function of the set of violations *)

Lemma existsb_incl {A} (f : A -> bool) (l l' : list A) :
  (forall x, x ∈ l -> x ∈ l') -> existsb f l = true -> existsb f l' = true.
Proof.
  intros Hincl. rewrite !existsb_exists. intros (x & Hin & Hx).
  exists x. split; [| exact Hx]. apply list_elem_of_In, Hincl, list_elem_of_In, Hin.
Qed.

Lemma verdict_incl (l l' : list Violation) :
  (forall v, v ∈ l -> v ∈ l') ->
  status_rank (verdict l).1 <= status_rank (verdict l').1
  /\ severity_rank (verdict l).2 <= severity_rank (verdict l').2.
Proof.
  intros Hincl. destruct l as [| a l]; [simpl; lia |].
  destruct l' as [| b l'].
  { specialize (Hincl a ltac:(left)). apply elem_of_nil in Hincl. contradiction. }
  pose proof (existsb_incl (sev_ge 9) _ _ Hincl) as H9.
  pose proof (existsb_incl (sev_ge 7) _ _ Hincl) as H7.
  unfold verdict. cbn [length Nat.eqb].
  destruct (existsb (sev_ge 9) (a :: l)), (existsb (sev_ge 9) (b :: l')),
    (existsb (sev_ge 7) (a :: l)), (existsb (sev_ge 7) (b :: l'));
    simpl; try lia;
    try (specialize (H9 eq_refl); discriminate);
    try (specialize (H7 eq_refl); discriminate).
Qed.

Lemma ranks_determine (x y : Status * Severity) :
  status_rank x.1 = status_rank y.1 ->
  severity_rank x.2 = severity_rank y.2 -> x = y.
Proof.
  destruct x as [[] []], y as [[] []]; simpl; intros; congruence || lia.
Qed.

(** Extra X6.  Status and severity depend only on which violations are
    present: they never decrease when violations are added, and two lists
    with the same members, in any order and multiplicity, get the same
    verdict. *)
Theorem X6_verdict_of_the_set :
  (forall l l' : list Violation,
      (forall v, v ∈ l -> v ∈ l') ->
      status_rank (verdict l).1 <= status_rank (verdict l').1
      /\ severity_rank (verdict l).2 <= severity_rank (verdict l').2)
  /\ (forall l l' : list Violation,
        (forall v, v ∈ l <-> v ∈ l') -> verdict l = verdict l').
Proof.
  split; [exact verdict_incl |].
  intros l l' Hsame.
  destruct (verdict_incl l l') as [H1 H2]; [intros v; apply Hsame |].
  destruct (verdict_incl l' l) as [H3 H4]; [intros v; apply Hsame |].
  apply ranks_determine; lia.
Qed.

(** ** The Inkeep client inside the orchestrator *)










(** ** Failures of the remote call *)

(** A run in which the call of the remote client throws. *)
Lemma failed_run gov remote rt input output context message :
  useInkeep gov = true ->
  remote input output context = Throw message ->
  exists interaction,
    processInteraction gov remote rt input output context = Ok interaction
    /\ i_violations interaction = detectViolations input output
    /\ filter is_error_action (i_agentActions interaction) =
       [ {| a_agentName := "InkeepGovernance";
            a_action := ActError;
            a_details := "Inkeep error: " ++ message;
            a_timestamp := Date_at rt AtInkeepError |} ].
Proof.
  intros Hu Hthrow. eexists. split.
  { apply processInteraction_stages.
    apply remote_stage_failure; [exact Hu | exact Hthrow]. }
  rewrite finalize_violations, finalize_actions.
  split; [now apply local_stage_from_empty |].
  rewrite local_stage_actions, filter_app, legacy_action_not_error.
  reflexivity.
Qed.

Lemma read_content_throws body message :
  Dynamic.read_content body = Throw message <->
  body = JNull
  /\ message = "Cannot read properties of null (reading 'content')".
Proof.
  split.
  - unfold Dynamic.read_content, mbind, Result_bind, bind.
    destruct body; cbn [get];
      try (destruct (ToBoolean _); discriminate).
    intros E. injection E as <-. split; reflexivity.
  - intros [-> ->]. reflexivity.
Qed.

Lemma collect_firstn {A B : Type} (f : A -> Result B) n l ys :
  collect f l = Ok ys -> collect f (firstn n l) = Ok (firstn n ys).
Proof.
  revert l ys. induction n as [| n IH]; intros l ys; [reflexivity |].
  destruct l as [| x rest]; cbn [collect firstn].
  - intros E. injection E as <-. reflexivity.
  - unfold mbind, Result_bind, bind.
    destruct (f x) as [y | m]; [| discriminate].
    destruct (collect f rest) as [rest' | m] eqn:Er; [| discriminate].
    intros E. injection E as <-. cbn [firstn].
    now rewrite (IH rest rest' Er).
Qed.

(** An array that converts to a string still does when cut short. *)
Lemma ToString_firstn items text n :
  ToString (JArray items) = Ok text ->
  exists cut, ToString (JArray (firstn n items)) = Ok cut.
Proof.
  cbn [ToString]. unfold mbind, Result_bind, bind.
  match goal with
  | |- context [collect ?f items] =>
      destruct (collect f items) as [parts | m] eqn:Ec; [| discriminate];
      rewrite (collect_firstn f n items parts Ec)
  end.
  intros _. eexists. reflexivity.
Qed.

Lemma sliced_without_slice content :
  content <> JNull ->
  Dynamic.has_slice content = false ->
  Dynamic.sliced content = Throw "content.slice is not a function".
Proof.
  intros Hnn. destruct content; try contradiction;
    try discriminate; reflexivity.
Qed.

Lemma sliced_throws content text message :
  content <> JNull ->
  ToString content = Ok text ->
  Dynamic.sliced content = Throw message ->
  Dynamic.has_slice content = false
  /\ message = "content.slice is not a function".
Proof.
  intros Hnn Ht. destruct content; try contradiction;
    try (intros E; injection E as <-; split; reflexivity).
  - discriminate.
  - destruct (ToString_firstn items text 200 Ht) as (cut & Ecut).
    unfold Dynamic.sliced, mbind, Result_bind, bind. rewrite Ecut.
    discriminate.
Qed.

(** [#parseBasic] throws on a null body, on a content that does not convert
    to a string and on a content without [slice], and on nothing else. *)
Lemma dynamic_parseBasic_throws rt body message :
  Dynamic.parseBasic rt body = Throw message <->
  (body = JNull
   /\ message = "Cannot read properties of null (reading 'content')")
  \/ (exists content,
        Dynamic.read_content body = Ok content
        /\ (ToString content = Throw message
            \/ ((exists text, ToString content = Ok text)
                /\ Dynamic.has_slice content = false
                /\ message = "content.slice is not a function"))).
Proof.
  unfold Dynamic.parseBasic, mbind, Result_bind, bind.
  destruct (Dynamic.read_content body) as [content | m] eqn:Er.
  - pose proof (read_content_not_null body content Er) as Hnn.
    destruct (ToString content) as [text | m] eqn:Et.
    + destruct (Dynamic.sliced content) as [details | m] eqn:Es.
      * split; [discriminate |].
        intros [[-> _] | (c & E & [N | (_ & Hc & _)])];
          [discriminate Er | injection E as <-; congruence |].
        injection E as <-.
        rewrite (sliced_without_slice content Hnn Hc) in Es. discriminate Es.
      * destruct (sliced_throws content text m Hnn Et Es) as [Hc ->].
        split.
        -- intros E. injection E as <-. right. exists content.
           split; [reflexivity |]. right. split; [now exists text |].
           now split.
        -- intros [[-> _] | (c & E & [N | (_ & _ & ->)])];
             [discriminate Er | injection E as <-; congruence | reflexivity].
    + split.
      * intros E. injection E as <-. right. exists content.
        split; [reflexivity |]. now left.
      * intros [[-> _] | (c & E & [N | ((text & Ht) & _)])];
          [discriminate Er | |]; injection E as <-; congruence.
  - split.
    + intros E. injection E as <-. left. now apply read_content_throws.
    + intros [H | (c & E & _)]; [| discriminate].
      apply read_content_throws in H. congruence.
Qed.

Lemma or_value_falsy field fallback :
  ToBoolean field = false -> or_value field fallback = fallback.
Proof.
  destruct field as [value |]; unfold or_value; [intros -> | intros _];
    reflexivity.
Qed.

(** Once [#parseBasic] has returned, the second reading of the content that
    [#parseAdvanced] makes goes through. *)
Lemma second_reading rt body basic :
  Dynamic.parseBasic rt body = Ok basic ->
  exists field text,
    get body "content" = Ok field
    /\ ToString (or_value field (JString EmptyString)) = Ok text.
Proof.
  unfold Dynamic.parseBasic, Dynamic.read_content, mbind, Result_bind, bind.
  destruct (get body "content") as [field | m]; [| discriminate].
  destruct (ToBoolean field) eqn:Eb.
  - destruct (ToString (or_value field (JString EmptyString)))
      as [text | m] eqn:Et; [| discriminate].
    intros _. exists field, text. split; [reflexivity | exact Et].
  - intros _. exists field, EmptyString. split; [reflexivity |].
    now rewrite (or_value_falsy field _ Eb).
Qed.

Lemma dynamic_parseAdvanced_throws rt body message :
  Dynamic.parseAdvanced rt body = Throw message <->
  Dynamic.parseBasic rt body = Throw message.
Proof.
  unfold Dynamic.parseAdvanced.
  destruct (Dynamic.parseBasic rt body) as [basic | m] eqn:Eb; [| reflexivity].
  destruct (second_reading rt body basic Eb) as (field & text & Hget & Ht).
  unfold mbind, Result_bind, bind. rewrite Hget, Ht. split; discriminate.
Qed.

(** Extra X9.  For string inputs and a context that [JSON.stringify]
    serializes, [processAdvancedGovernance] returns exactly when the endpoint
    answers with a status in 200..299 and a body that parses as JSON and on
    which [#parseAdvanced] returns, and then with that result.  It throws in
    five cases only: the rejection of [fetch], with its message; a status
    outside 200..299, with a message that carries the status and the body
    text, or with the rejection of [response.text()]; a body that is not
    JSON, with the rejection of [response.json()]; and a [TypeError] of
    [#parseAdvanced].  That last one arises exactly on the body [null], on a
    content (the first truthy of [content] and [message]) that does not
    convert to a string, and on a content without [slice], that is a
    non-zero number, [true] or an object.  On a body of the expected shape
    the parser never throws.  Inside [processInteraction] whatever the call
    throws becomes the details of the one error action, and the local
    violations are reported. *)
Theorem X9_remote_call_failures svc rt fetch input output context :
  let request := advanced_request svc input output context in
  let call := processAdvancedGovernance svc rt fetch input output context in
  let http_error (status : Z) (text : string) :=
    "Inkeep agents API error: " ++ pretty status ++ " - " ++ text in
  (forall result,
      call = Ok result <->
      exists response body,
        fetch request = Ok response
        /\ resp_ok response = true
        /\ resp_json response = Ok body
        /\ Dynamic.parseAdvanced rt body = Ok result)
  /\ (forall message,
        call = Throw message <->
        fetch request = Throw message
        \/ (exists response text,
              fetch request = Ok response
              /\ resp_ok response = false
              /\ resp_text response = Ok text
              /\ message = http_error (resp_status response) text)
        \/ (exists response,
              fetch request = Ok response
              /\ resp_ok response = false
              /\ resp_text response = Throw message)
        \/ (exists response,
              fetch request = Ok response
              /\ resp_ok response = true
              /\ resp_json response = Throw message)
        \/ (exists response body,
              fetch request = Ok response
              /\ resp_ok response = true
              /\ resp_json response = Ok body
              /\ Dynamic.parseAdvanced rt body = Throw message))
  /\ (forall body message,
        Dynamic.parseAdvanced rt body = Throw message <->
        (body = JNull
         /\ message = "Cannot read properties of null (reading 'content')")
        \/ (exists content,
              Dynamic.read_content body = Ok content
              /\ (ToString content = Throw message
                  \/ ((exists text, ToString content = Ok text)
                      /\ Dynamic.has_slice content = false
                      /\ message = "content.slice is not a function"))))
  /\ (forall response,
        Dynamic.parseAdvanced rt (body_of response)
        = Ok (parseAdvanced rt response))
  /\ (forall gov message,
        useInkeep gov = true ->
        call = Throw message ->
        exists interaction,
          processInteraction gov (inkeepClient svc rt fetch) rt
            input output context = Ok interaction
          /\ i_violations interaction = detectViolations input output
          /\ filter is_error_action (i_agentActions interaction) =
             [ {| a_agentName := "InkeepGovernance";
                  a_action := ActError;
                  a_details := "Inkeep error: " ++ message;
                  a_timestamp := Date_at rt AtInkeepError |} ]).
Proof.
  intros request call http_error.
  assert (Hcall :
    call = match fetch request with
           | Throw m => Throw m
           | Ok response =>
               if resp_ok response then
                 match resp_json response with
                 | Ok body => Dynamic.parseAdvanced rt body
                 | Throw m => Throw m
                 end
               else
                 match resp_text response with
                 | Ok text => Throw (http_error (resp_status response) text)
                 | Throw m => Throw m
                 end
           end).
  { subst call. unfold processAdvancedGovernance, mbind, Result_bind, bind.
    fold request.
    destruct (fetch request) as [response | m]; [| reflexivity].
    destruct (resp_ok response); cbn [negb].
    - now destruct (resp_json response).
    - now destruct (resp_text response). }
  split; [| split; [| split; [| split]]].
  - intros result. rewrite Hcall. split.
    + destruct (fetch request) as [response | m]; [| discriminate].
      destruct (resp_ok response) eqn:Eok.
      * destruct (resp_json response) as [body | m] eqn:Ej; [| discriminate].
        intros E. exists response, body. auto.
      * destruct (resp_text response); discriminate.
    + intros (response & body & -> & -> & -> & E). exact E.
  - intros message. rewrite Hcall. split.
    + destruct (fetch request) as [response | m].
      * destruct (resp_ok response) eqn:Eok.
        -- destruct (resp_json response) as [body | m] eqn:Ej.
           ++ intros E. do 4 right. exists response, body. auto.
           ++ intros E. injection E as <-. do 3 right. left.
              exists response. auto.
        -- destruct (resp_text response) as [text | m] eqn:Et.
           ++ intros E. injection E as <-. right. left.
              exists response, text. auto.
           ++ intros E. injection E as <-. do 2 right. left.
              exists response. auto.
      * intros E. injection E as <-. now left.
    + intros [-> | [(response & text & -> & -> & -> & ->)
                   | [(response & -> & -> & ->)
                     | [(response & -> & -> & ->)
                       | (response & body & -> & -> & -> & E)]]]];
        [reflexivity | reflexivity | reflexivity | reflexivity | exact E].
  - intros body message. rewrite dynamic_parseAdvanced_throws.
    apply dynamic_parseBasic_throws.
  - intros response. apply parseAdvanced_on_body.
  - intros gov message Hu Hthrow.
    apply failed_run; [exact Hu |].
    unfold inkeepClient, mbind, Result_bind, bind.
    fold call. now rewrite Hthrow.
Qed.

(** ** What the parser reports about its own findings *)




(** ** Configuration *)

Lemma env_is_iff (env : Env) k v : env_is env k v = true <-> env !! k = Some v.
Proof. unfold env_is. apply bool_decide_eq_true. Qed.

Lemma env_is_not (env : Env) k v : env_is env k v = false <-> env !! k <> Some v.
Proof. unfold env_is. apply bool_decide_eq_false. Qed.

Lemma client_enabled_iff (env : Env) :
  isEnabled (InkeepAgentsService_new env) = true <->
  env !! "USE_INKEEP_AGENTS" = Some "true"
  \/ env !! "VITE_USE_INKEEP_AGENTS" = Some "true".
Proof.
  unfold InkeepAgentsService_new. cbn [isEnabled].
  rewrite orb_true_iff, !env_is_iff. reflexivity.
Qed.

(** Extra X12.  The constructor of the client enables the remote tier
    exactly when USE_INKEEP_AGENTS or VITE_USE_INKEEP_AGENTS is the string
    true.  Its base URL is INKEEP_AGENTS_URL when that is set and not empty,
    else VITE_INKEEP_AGENTS_URL when that is set and not empty, else
    http://localhost:3003: an empty variable counts as a missing one. *)
Theorem X12_client_configuration (env : Env) :
  let svc := InkeepAgentsService_new env in
  let unset (k : string) := env !! k = None \/ env !! k = Some EmptyString in
  (isEnabled svc = true <->
   env !! "USE_INKEEP_AGENTS" = Some "true"
   \/ env !! "VITE_USE_INKEEP_AGENTS" = Some "true")
  /\ (forall u, env !! "INKEEP_AGENTS_URL" = Some u -> u <> EmptyString ->
        baseUrl svc = u)
  /\ (forall u, unset "INKEEP_AGENTS_URL" ->
        env !! "VITE_INKEEP_AGENTS_URL" = Some u -> u <> EmptyString ->
        baseUrl svc = u)
  /\ (unset "INKEEP_AGENTS_URL" -> unset "VITE_INKEEP_AGENTS_URL" ->
      baseUrl svc = "http://localhost:3003").
Proof.
  intros svc unset. subst svc. unfold InkeepAgentsService_new.
  cbn [isEnabled baseUrl].
  assert (Htruthy : forall u, u <> EmptyString -> truthy (Some u) = true).
  { intros u Hu. simpl. apply negb_true_iff. now apply String.eqb_neq. }
  assert (Hunset : forall k, unset k -> truthy (env !! k) = false).
  { intros k [-> | ->]; reflexivity. }
  split; [rewrite orb_true_iff, !env_is_iff; reflexivity |].
  split.
  { intros u Hu Hne. unfold js_or_default, js_or.
    rewrite Hu. rewrite !(Htruthy u Hne). reflexivity. }
  split.
  { intros u Hun Hu Hne. unfold js_or_default, js_or.
    rewrite (Hunset _ Hun), Hu. rewrite !(Htruthy u Hne). reflexivity. }
  intros Hun Hun'. unfold js_or_default, js_or.
  rewrite (Hunset _ Hun). rewrite !(Hunset _ Hun'). reflexivity.
Qed.

Lemma isAvailable_true_enabled svc net :
  isAvailable svc net = Fulfilled true -> isEnabled svc = true.
Proof. unfold isAvailable. now destruct (isEnabled svc). Qed.

Lemma isAvailable_not_rejected svc net message :
  isAvailable svc net <> Rejected message.
Proof.
  unfold isAvailable, probe_executor, client_request, try_catch, new_Promise,
    mbind, Result_bind, bind.
  destruct (negb (isEnabled svc)); [discriminate |].
  destruct (URL_new net (baseUrl svc ++ "/health")) as [u | m]; [| discriminate].
  cbv zeta. destruct (request_accepts (client_for u) u); [| discriminate].
  destruct (request_events net (client_for u) u health_options) as [| e rest];
    [discriminate |].
  rewrite first_event_settles. destruct e; discriminate.
Qed.

(** Extra X13.  Once the probe started by the constructor has settled, the
    orchestrator attempts the remote tier exactly when neither
    USE_INKEEP_AGENTS nor VITE_USE_INKEEP_AGENTS is the string false, one of
    them is the string true, and the probe found the endpoint available.
    The orchestrator's own flag needs only the first of these conditions. *)
Theorem X13_remote_tier_needs_explicit_true (env : Env) net :
  let gov := boot env net in
  let no_false :=
    env !! "USE_INKEEP_AGENTS" <> Some "false"
    /\ env !! "VITE_USE_INKEEP_AGENTS" <> Some "false" in
  (useInkeepAgents gov = true <-> no_false)
  /\ (useInkeep gov = true <->
      no_false
      /\ (env !! "USE_INKEEP_AGENTS" = Some "true"
          \/ env !! "VITE_USE_INKEEP_AGENTS" = Some "true")
      /\ isAvailable (InkeepAgentsService_new env) net = Fulfilled true).
Proof.
  intros gov no_false.
  assert (Hflag : useInkeepAgents gov = true <-> no_false).
  { subst gov no_false. unfold boot, checkInkeepAvailability.
    assert (E : forall p, useInkeepAgents
                  match p with
                  | Fulfilled b =>
                      {| useInkeepAgents := useInkeepAgents (GovernanceService_new env);
                         inkeepAvailable := b |}
                  | _ => GovernanceService_new env
                  end = useInkeepAgents (GovernanceService_new env))
      by now intros [].
    rewrite E. cbn [useInkeepAgents GovernanceService_new].
    rewrite andb_true_iff, !negb_true_iff, !env_is_not. reflexivity. }
  split; [exact Hflag |].
  assert (Havail : inkeepAvailable gov = true <->
                   isAvailable (InkeepAgentsService_new env) net = Fulfilled true).
  { subst gov. unfold boot, checkInkeepAvailability.
    destruct (isAvailable (InkeepAgentsService_new env) net) as [[] | m |];
      cbn; split; congruence. }
  unfold useInkeep. rewrite andb_true_iff, Hflag, Havail. split.
  - intros [Hnf Hprobe]. split; [exact Hnf |]. split; [| exact Hprobe].
    apply isAvailable_true_enabled in Hprobe.
    now apply (client_enabled_iff env).
  - intros (Hnf & _ & Hprobe). now split.
Qed.

Lemma unused_run gov remote rt input output context :
  useInkeep gov = false ->
  processInteraction gov remote rt input output context =
  Ok (finalize
        (local_stage rt input output (new_interaction rt input output) false)).
Proof.
  intros Hu. apply processInteraction_stages, remote_stage_unused. exact Hu.
Qed.

(** Extra X14.  Under an environment that sets neither USE_INKEEP_AGENTS nor
    VITE_USE_INKEEP_AGENTS, the orchestrator's flag is on but the client is
    not enabled, so the probe answers false without a request: whatever the
    network and the remote client, every evaluation is the local-only one. *)
Theorem X14_default_configuration_stays_local
    (env : Env) net remote rt input output context :
  env !! "USE_INKEEP_AGENTS" = None ->
  env !! "VITE_USE_INKEEP_AGENTS" = None ->
  useInkeepAgents (boot env net) = true
  /\ inkeepAvailable (boot env net) = false
  /\ processInteraction (boot env net) remote rt input output context
     = processInteraction legacy_only remote rt input output context.
Proof.
  intros H1 H2.
  assert (Hoff : isEnabled (InkeepAgentsService_new env) = false).
  { destruct (isEnabled (InkeepAgentsService_new env)) eqn:E; [| reflexivity].
    apply client_enabled_iff in E as [E | E]; congruence. }
  assert (Hboot : boot env net
                  = {| useInkeepAgents := true; inkeepAvailable := false |}).
  { unfold boot, isAvailable. rewrite Hoff. cbn.
    unfold env_is. rewrite H1, H2. reflexivity. }
  rewrite Hboot. split; [reflexivity |]. split; [reflexivity |].
  rewrite !unused_run by reflexivity. reflexivity.
Qed.

(** Extra X14 under the empty environment and a healthy endpoint. *)
Lemma X14_default_configuration_stays_local_witness :
  useInkeepAgents (boot ∅ healthy_network) = true
  /\ inkeepAvailable (boot ∅ healthy_network) = false
  /\ processInteraction (boot ∅ healthy_network) failing_client sample_runtime
       wifi_question refusal None
     = processInteraction legacy_only failing_client sample_runtime
         wifi_question refusal None.
Proof.
  apply (X14_default_configuration_stays_local ∅ healthy_network failing_client
           sample_runtime wifi_question refusal None); reflexivity.
Defined.

(** ** Switching and reporting *)

(** Extra X15.  Switching the remote tier off never probes, resolves at once
    and keeps the cached availability; every later evaluation is the
    local-only one.  Switching it on takes the availability from the probe
    when the probe is fulfilled; while the probe is pending or if it were
    rejected, the cached availability keeps deciding whether the remote tier
    is attempted. *)
Theorem X15_switching_the_tier gov probe remote rt input output context :
  switchAgentType gov false probe
  = ({| useInkeepAgents := false; inkeepAvailable := inkeepAvailable gov |},
     Fulfilled tt)
  /\ processInteraction (switchAgentType gov false probe).1 remote rt
       input output context
     = Ok (finalize
             (local_stage rt input output (new_interaction rt input output)
                false))
  /\ useInkeep (switchAgentType gov true probe).1
     = match probe with
       | Fulfilled available => available
       | _ => inkeepAvailable gov
       end
  /\ ((switchAgentType gov true probe).2 = Fulfilled tt <->
      exists available, probe = Fulfilled available).
Proof.
  split; [reflexivity |].
  split; [apply unused_run; reflexivity |].
  split; [now destruct probe |].
  destruct probe; cbn; split; intros H; try discriminate; eauto;
    destruct H as (b & E); discriminate.
Qed.

(** Extra X16.  [getStatus] never changes the enablement flag and never
    rejects when its probe is that of the client.  The agent type it reports
    is inkeep exactly when the service, as the call leaves it, would attempt
    the remote tier in [processInteraction].  With the tier disabled it does
    not probe: it reports the cached availability as it is. *)
Theorem X16_status_matches_routing gov svc net :
  let probe := isAvailable svc net in
  let after := (getStatus gov probe).1 in
  useInkeepAgents after = useInkeepAgents gov
  /\ (forall message, (getStatus gov probe).2 <> Rejected message)
  /\ (forall status,
        (getStatus gov probe).2 = Fulfilled status ->
        status = status_of after
        /\ (agentType status = AgentInkeep <-> useInkeep after = true))
  /\ (useInkeepAgents gov = false ->
      getStatus gov probe = (gov, Fulfilled (status_of gov)))
  /\ (useInkeepAgents gov = true ->
      forall available,
        probe = Fulfilled available -> inkeepAvailable after = available).
Proof.
  intros probe after. subst after.
  pose proof (isAvailable_not_rejected svc net) as Hnr. fold probe in Hnr.
  assert (Hagent : forall g,
             agentType (status_of g) = AgentInkeep <-> useInkeep g = true).
  { intros g. unfold status_of, useInkeep. cbn.
    destruct (useInkeepAgents g && inkeepAvailable g); split;
      congruence. }
  unfold getStatus.
  destruct (useInkeepAgents gov) eqn:Eflag; cbn [fst snd].
  - split; [unfold checkInkeepAvailability; now destruct probe |].
    split; [intros m; destruct probe as [b | m' |]; cbn;
            [discriminate | intros E; injection E as E; now apply (Hnr m')
            | discriminate] |].
    split.
    { intros status. destruct probe as [b | m' |]; cbn; try discriminate.
      intros E. injection E as <-. split; [reflexivity | apply Hagent]. }
    split; [discriminate |].
    intros _ available ->. reflexivity.
  - split; [exact Eflag |]. split; [discriminate |].
    split.
    { intros status E. injection E as <-. split; [reflexivity | apply Hagent]. }
    split; [reflexivity | discriminate].
Qed.

(** ** Insights and feedback *)

(** Extra X17.  [getGovernanceInsights] of the orchestrator answers with the
    fixed zero summary, without any request, when the remote tier is not in
    use.  When it is in use it posts one request for the given timeframe
    (today when none is given) to the compliance-audit graph and returns the
    body exactly when the status is in 200..299 and the body parses; any
    other outcome escapes as an exception, a status outside 200..299 with a
    message that carries the status: unlike [processInteraction], there is no
    fallback. *)
Theorem X17_insights gov svc fetch timeframe :
  let request :=
    conversations_post svc "compliance-audit-graph"
      ("Provide governance insights for " ++ default "today" timeframe ++ ".") in
  let call := getGovernanceInsights gov svc fetch timeframe in
  (useInkeep gov = false -> call = Ok (LocalSummary 0 0 0 "100%"))
  /\ (useInkeep gov = true ->
      forall insights,
        call = Ok insights <->
        exists response raw,
          fetch request = Ok response
          /\ cr_ok response = true
          /\ cr_json response = Ok raw
          /\ insights = RemoteInsights raw)
  /\ (useInkeep gov = true ->
      forall response,
        fetch request = Ok response -> cr_ok response = false ->
        call = Throw ("Inkeep agents API error: " ++ pretty (cr_status response)))
  /\ (useInkeep gov = true ->
      forall message, fetch request = Throw message -> call = Throw message).
Proof.
  intros request call.
  assert (Hcall :
    call = if useInkeep gov then
             match fetch request with
             | Throw m => Throw m
             | Ok response =>
                 if cr_ok response then
                   match cr_json response with
                   | Ok raw => Ok (RemoteInsights raw)
                   | Throw m => Throw m
                   end
                 else Throw ("Inkeep agents API error: "
                               ++ pretty (cr_status response))
             end
           else Ok (LocalSummary 0 0 0 "100%")).
  { subst call. unfold getGovernanceInsights, Inkeep.getGovernanceInsights,
      useInkeep, mbind, Result_bind, bind.
    cbv zeta. destruct (useInkeepAgents gov && inkeepAvailable gov);
      [| reflexivity].
    change (conversations_post svc "compliance-audit-graph" _) with request.
    destruct (fetch request) as [response | m]; [| reflexivity].
    destruct (cr_ok response); [| reflexivity].
    now destruct (cr_json response). }
  rewrite Hcall. split; [now intros -> |].
  split.
  { intros ->. intros insights. split.
    - destruct (fetch request) as [response | m]; [| discriminate].
      destruct (cr_ok response) eqn:Eok; [| discriminate].
      destruct (cr_json response) as [raw | m] eqn:Ej; [| discriminate].
      intros E. injection E as <-. exists response, raw. auto.
    - intros (response & raw & -> & -> & -> & ->). reflexivity. }
  split; [intros -> response -> ->; reflexivity |].
  intros -> message ->. reflexivity.
Qed.

(** Extra X18.  [processFeedback] posts to the compliance-audit graph a
    message with the interaction id and the rating, and the comment only
    when it is present and not empty: an empty comment gives the same request
    as no comment.  When the status is in 200..299 and the body parses it
    reports the feedback as processed and the audit log as created, whatever
    the body says; otherwise it throws. *)
Theorem X18_feedback svc fetch interactionId feedback :
  let call := Inkeep.processFeedback svc fetch interactionId feedback in
  (forall result,
      call = Ok result ->
      feedbackProcessed result = true /\ auditLogCreated result = true)
  /\ (forall result,
        call = Ok result <->
        exists response,
          fetch (conversations_post svc "compliance-audit-graph"
                   (Inkeep.feedback_message interactionId feedback))
          = Ok response
          /\ cr_ok response = true
          /\ cr_json response = Ok (fb_raw result)
          /\ feedbackProcessed result = true
          /\ auditLogCreated result = true)
  /\ Inkeep.processFeedback svc fetch interactionId
       {| rating := rating feedback; comment := Some EmptyString |}
     = Inkeep.processFeedback svc fetch interactionId
         {| rating := rating feedback; comment := None |}
  /\ (forall text, comment feedback = Some text -> text <> EmptyString ->
        exists before,
          Inkeep.feedback_message interactionId feedback
          = before ++ "Comment: " ++ text).
Proof.
  intros call.
  assert (Hok : forall result,
             call = Ok result <->
             exists response,
               fetch (conversations_post svc "compliance-audit-graph"
                        (Inkeep.feedback_message interactionId feedback))
               = Ok response
               /\ cr_ok response = true
               /\ cr_json response = Ok (fb_raw result)
               /\ feedbackProcessed result = true
               /\ auditLogCreated result = true).
  { intros result. subst call.
    unfold Inkeep.processFeedback, mbind, Result_bind, bind.
    destruct (fetch _) as [response | m].
    - destruct (cr_ok response) eqn:Eok; cbn.
      + destruct (cr_json response) as [raw | m] eqn:Ej.
        * split.
          -- intros E. injection E as <-. exists response. auto.
          -- intros (r & E & _ & Er & Hp & Ha). injection E as <-.
             rewrite Ej in Er. injection Er as ->.
             destruct result; cbn in *; subst; reflexivity.
        * split; [discriminate |].
          intros (r & E & _ & Er & _). injection E as <-.
          rewrite Ej in Er. discriminate.
      + split; [discriminate |].
        intros (r & E & Hr & _). injection E as <-. congruence.
    - split; [discriminate |]. intros (r & E & _). discriminate. }
  split.
  { intros result E. apply Hok in E as (_ & _ & _ & _ & Hp & Ha). now split. }
  split; [exact Hok |]. split; [reflexivity |].
  intros text Hc Hne. unfold Inkeep.feedback_message. rewrite Hc.
  assert (Ht : truthy (Some text) = true).
  { simpl. apply negb_true_iff. now apply String.eqb_neq. }
  rewrite Ht. cbn [default].
  eexists. rewrite <- !append_assoc. reflexivity.
Qed.

(** ** The earlier revision of processInteraction *)

(** Extra X19.  In the earlier revision a failure of the remote call, with
    the remote tier in use, is logged and nothing else happens: the local
    detector does not run, so the interaction is approved with severity low,
    no violations and one log action that carries the message. *)
Theorem X19_earlier_revision_fails_open
    gov remote rt logged_at input output context message :
  useInkeep gov = true ->
  remote input output context = Throw message ->
  exists interaction,
    Earlier.processInteraction gov remote rt logged_at input output context
    = Ok interaction
    /\ i_violations interaction = []
    /\ i_status interaction = Approved
    /\ i_severity interaction = Low
    /\ i_agentActions interaction =
       [ {| a_agentName := "GovernanceService";
            a_action := ActLog;
            a_details := "Processing error: " ++ message;
            a_timestamp := logged_at |} ].
Proof.
  intros Hu Hthrow. eexists.
  unfold Earlier.processInteraction, try_catch, mbind, Result_bind, bind.
  rewrite Hu, Hthrow. split; [reflexivity |]. repeat split.
Qed.

(** Extra X19 on the wifi question: approved when the remote call fails. *)
Lemma X19_earlier_revision_fails_open_witness :
  exists interaction,
    Earlier.processInteraction inkeep_in_use failing_direct sample_runtime
      1700000000000%N wifi_question refusal None
    = Ok interaction
    /\ i_violations interaction = []
    /\ i_status interaction = Approved
    /\ i_severity interaction = Low
    /\ i_agentActions interaction =
       [ {| a_agentName := "GovernanceService";
            a_action := ActLog;
            a_details := "Processing error: " ++ "fetch failed";
            a_timestamp := 1700000000000%N |} ].
Proof.
  apply (X19_earlier_revision_fails_open inkeep_in_use failing_direct
           sample_runtime 1700000000000%N wifi_question refusal None
           "fetch failed"); reflexivity.
Defined.

Lemma earlier_run gov remote rt logged_at input output context :
  exists staged,
    Earlier.processInteraction gov remote rt logged_at input output context
    = Ok (finalize staged)
    /\ i_violations staged =
       if useInkeep gov then
         match remote input output context with
         | Ok result => default [] (rr_violations result)
         | Throw _ => []
         end
       else detectViolations input output.
Proof.
  unfold Earlier.processInteraction, try_catch, mbind, Result_bind, bind.
  destruct (useInkeep gov).
  - destruct (remote input output context) as [result | message];
      eexists; split; reflexivity.
  - eexists; split; reflexivity.
Qed.

(** What the remote stage of the later revision leaves for a client of the
    earlier one. *)
Lemma lifted_stage gov client rt input output context staged ok :
  remote_stage gov (Earlier.lift client) rt input output context
    (new_interaction rt input output) = Ok (staged, ok) ->
  i_violations staged =
  if useInkeep gov then
    match client input output context with
    | Ok result => default [] (rr_violations result)
    | Throw _ => []
    end
  else [].
Proof.
  unfold remote_stage, Earlier.lift, try_catch, mbind, Result_bind, bind.
  destruct (useInkeep gov); [| intros E; injection E as <- _; reflexivity].
  destruct (client input output context) as [result | message];
    [| intros E; injection E as <- _; reflexivity].
  destruct (rr_violations result) as [[| x xs] |];
    intros E; simpl in E; injection E as <- _; reflexivity.
Qed.

(** Extra X20.  The later revision never reports less than the earlier one:
    for the same service, client, input and output, every violation of the
    earlier result is in the later result, and the later status and severity
    are at least the earlier ones.  When the remote tier is not in use the
    two revisions report the same violations, status and severity. *)
Theorem X20_later_revision_reports_more
    gov client rt logged_at input output context :
  exists earlier later,
    Earlier.processInteraction gov client rt logged_at input output context
    = Ok earlier
    /\ processInteraction gov (Earlier.lift client) rt input output context
       = Ok later
    /\ (forall v, v ∈ i_violations earlier -> v ∈ i_violations later)
    /\ status_rank (i_status earlier) <= status_rank (i_status later)
    /\ severity_rank (i_severity earlier) <= severity_rank (i_severity later)
    /\ (useInkeep gov = false ->
        i_violations earlier = i_violations later
        /\ i_status earlier = i_status later
        /\ i_severity earlier = i_severity later).
Proof.
  destruct (earlier_run gov client rt logged_at input output context)
    as (old & Hold & Holdv).
  destruct (remote_stage_total gov (Earlier.lift client) rt input output context
              (new_interaction rt input output)) as (staged & ok & Hs).
  exists (finalize old), (finalize (local_stage rt input output staged ok)).
  split; [exact Hold |].
  split; [apply processInteraction_stages; exact Hs |].
  assert (Hincl : forall v,
             v ∈ i_violations old ->
             v ∈ i_violations (local_stage rt input output staged ok)).
  { rewrite Holdv, local_stage_violations, (lifted_stage _ _ _ _ _ _ _ _ Hs).
    destruct (useInkeep gov).
    - intros v Hv. apply elem_of_app. now left.
    - intros v Hv. rewrite filter_all; [exact Hv |].
      intros x _. apply not_elem_of_nil. }
  rewrite !finalize_violations.
  split; [exact Hincl |].
  pose proof (finalize_verdict old) as Hvo.
  pose proof (finalize_verdict (local_stage rt input output staged ok)) as Hvn.
  destruct (verdict_incl _ _ Hincl) as [Hst Hsev].
  rewrite <- Hvo, <- Hvn in Hst, Hsev. cbn [fst snd] in Hst, Hsev.
  split; [exact Hst |]. split; [exact Hsev |].
  intros Hu.
  assert (Esame : i_violations old
                  = i_violations (local_stage rt input output staged ok)).
  { rewrite Holdv, Hu. rewrite remote_stage_unused in Hs by exact Hu.
    injection Hs as <- _. symmetry. now apply local_stage_from_empty. }
  split; [exact Esame |].
  rewrite <- Esame in Hvn. rewrite <- Hvn in Hvo.
  split; congruence.
Qed.



(** ** Precedence inside the illegal-activity category *)

(** Extra X22.  The wifi catalog takes precedence over the general hacking
    catalog: an illegal_activity finding is the wifi one, of severity 9.0,
    whenever a wifi pattern matches, and the general one, of severity 9.5,
    only when no wifi pattern matches and a hacking pattern does.  So the
    detector reports illegal_activity exactly when one of the two catalogs
    fires. *)
Theorem X22_wifi_takes_precedence input output :
  let text := detection_text input output in
  (forall v,
      v ∈ detectViolations input output -> v_type v = "illegal_activity" ->
      (hit wifiHackingPatterns text = true /\ v = wifiViolation)
      \/ (hit wifiHackingPatterns text = false
          /\ hit hackingPatterns text = true /\ v = hackingViolation))
  /\ (hit wifiHackingPatterns text = true ->
      wifiViolation ∈ detectViolations input output
      /\ hackingViolation ∉ detectViolations input output)
  /\ (hit wifiHackingPatterns text = false -> hit hackingPatterns text = true ->
      hackingViolation ∈ detectViolations input output).
Proof.
  intros text.
  pose proof (detectViolations_spec input output) as E. cbv zeta in E.
  rewrite E. clear E. fold text.
  split; [| split].
  - intros v Hv Ht. revert Hv.
    destruct (hit wifiHackingPatterns text), (hit hackingPatterns text),
      (hit violencePatterns text), (hit piiPatterns text); simpl; intros Hv;
      repeat (apply elem_of_cons in Hv; destruct Hv as [-> | Hv]);
      try (apply elem_of_nil in Hv; contradiction);
      try discriminate Ht;
      first [left; split; reflexivity | right; repeat split; reflexivity].
  - intros ->.
    destruct (hit hackingPatterns text), (hit violencePatterns text),
      (hit piiPatterns text); simpl;
      (split; [left |]);
      intros C;
      repeat (apply elem_of_cons in C; destruct C as [C | C]);
      try (apply elem_of_nil in C; contradiction); discriminate C.
  - intros -> ->. left.
Qed.
